(** * datsci.eda: column detectors, correlation clusters and table summaries

    A shallow embedding of [datsci/eda.py].  Python values are tagged
    values, floats are extended rationals with a NaN, dictionaries are
    finite maps, sets of column names are finite sets; exceptions and a
    [Queue.put] that never returns are explicit outcomes. *)

From Stdlib Require Import QArith ZArith Lia Lqa Ascii String List.
From stdpp Require Import base option list gmap sets strings relations pretty.

Local Open Scope string_scope.
Local Open Scope list_scope.
Local Open Scope nat_scope.

(** ** Python values *)

Module Py.

(** A Python [float]: NaN, the two infinities, or a finite number.  Finite
    values are rationals; comparison, [min], [max] and [==] are exact on
    floats, so only the results of divisions are idealised. *)
Inductive pyfloat : Type :=
| FNan
| FNegInf
| FPosInf
| FFin (q : Q).

(** [a < b] on floats; every comparison with NaN is false. *)
Definition float_ltb (a b : pyfloat) : bool :=
  match a, b with
  | FNan, _ | _, FNan => false
  | FPosInf, _ => false
  | _, FNegInf => false
  | FNegInf, _ => true
  | FFin _, FPosInf => true
  | FFin p, FFin q => negb (Qle_bool q p)
  end.

(** [a <= b] on floats. *)
Definition float_leb (a b : pyfloat) : bool :=
  match a, b with
  | FNan, _ | _, FNan => false
  | FNegInf, _ => true
  | _, FPosInf => true
  | FPosInf, _ => false
  | FFin _, FNegInf => false
  | FFin p, FFin q => Qle_bool p q
  end.

(** [a >= b] and [a > b]. *)
Definition float_geb (a b : pyfloat) : bool := float_leb b a.
Definition float_gtb (a b : pyfloat) : bool := float_ltb b a.

(** [a == b] on floats; NaN equals nothing. *)
Definition float_eqb (a b : pyfloat) : bool :=
  match a, b with
  | FNegInf, FNegInf | FPosInf, FPosInf => true
  | FFin p, FFin q => Qeq_bool p q
  | _, _ => false
  end.

(** The builtin [max(a, b)]: the first argument unless the second is
    strictly larger.  [min(a, b)] likewise. *)
Definition py_max (a b : pyfloat) : pyfloat := if float_gtb b a then b else a.
Definition py_min (a b : pyfloat) : pyfloat := if float_ltb b a then b else a.

Definition isinf (a : pyfloat) : bool :=
  match a with FNegInf | FPosInf => true | _ => false end.

Definition isnan (a : pyfloat) : bool :=
  match a with FNan => true | _ => false end.

(** A cell of an in-memory table. *)
Inductive pyval : Type :=
| PInt (z : Z)
| PFloat (f : pyfloat)
| PStr (s : string)
| PNone.

(** Exceptions the embedded functions raise. *)
Inductive exn : Type :=
| KeyError (k : string)
| ZeroDivisionError
| StopIteration.

(** What a call does: return, raise, wait for ever in [Queue.put], or
    exhaust the fuel of the embedding (shown below never to happen). *)
Inductive outcome (A : Type) : Type :=
| Return (a : A)
| Raise (e : exn)
| Blocks
| OutOfFuel.
Arguments Return {A} a.
Arguments Raise {A} e.
Arguments Blocks {A}.
Arguments OutOfFuel {A}.

(** Sequencing: the first call that does not return decides the outcome. *)
Definition bind {A B : Type} (k : A -> outcome B) (m : outcome A) : outcome B :=
  match m with
  | Return a => k a
  | Raise e => Raise e
  | Blocks => Blocks
  | OutOfFuel => OutOfFuel
  end.

#[global] Instance outcome_ret : MRet outcome := @Return.
#[global] Instance outcome_bind : MBind outcome := @bind.

End Py.
Export Py.

(** ** Tables *)

(** A [pandas.DataFrame]: its number of rows and its named columns, in
    order. *)
Record DataFrame : Type := {
  df_nrows : nat;
  df_data : list (string * list pyval)
}.

(** [df.columns]. *)
Definition columns (df : DataFrame) : list string := (df_data df).*1.

(** The result of [df.corr(method=...)]: a square frame whose row and
    column labels are [corr_index], with the coefficient at row [m] and
    column [n]. *)
Record CorrFrame : Type := {
  corr_index : list string;
  corr_at : string -> string -> pyfloat
}.

(** ** Correlation clusters *)

Section Clusters.

(** [pandas.DataFrame.corr] is library code: it is a parameter here. *)
Variable corr : DataFrame -> string -> CorrFrame.

(** [get_neighbors(n)]: the labels of the rows of [df_corr] whose entry in
    column [n] is at least [thresh], without [n].  [df_corr[n]] raises
    [KeyError] for an unknown label, [set.remove] for a missing element. *)
Definition get_neighbors (df_corr : CorrFrame) (thresh : pyfloat) (n : string)
  : outcome (gset string) :=
  if decide (n ∈ corr_index df_corr) then
    let neighbors : gset string :=
      list_to_set (filter (fun m => float_geb (corr_at df_corr m n) thresh = true)
                          (corr_index df_corr)) in
    if decide (neighbors = ∅) then Return neighbors
    else if decide (n ∈ neighbors) then Return (neighbors ∖ {[n]})
    else Raise (KeyError n)
  else Raise (KeyError n).

(** [q.put(x)] on a [Queue(maxsize)]: it waits while the queue holds
    [maxsize] items, for ever here since nothing else takes from it; a
    [maxsize] of zero is no bound. *)
Definition queue_put (maxsize : nat) (q : list string) (x : string)
  : outcome (list string) :=
  if (0 <? maxsize) && (maxsize <=? List.length q) then Blocks else Return (q ++ [x]).

(** The [for _n2 in get_neighbors(_n)] loop of [get_cluster]. *)
Fixpoint visit_neighbors (maxsize : nat) (nbrs : list string)
    (q : list string) (seen : gset string) : outcome (list string * gset string) :=
  match nbrs with
  | [] => Return (q, seen)
  | n2 :: rest =>
      if decide (n2 ∈ seen) then visit_neighbors maxsize rest q seen
      else q' ← queue_put maxsize q n2;
           visit_neighbors maxsize rest q' ({[n2]} ∪ seen)
  end.

(** The [while not q.empty()] loop of [get_cluster]. *)
Fixpoint bfs_loop (fuel : nat) (df_corr : CorrFrame) (thresh : pyfloat)
    (maxsize : nat) (q : list string) (seen : gset string) : outcome (gset string) :=
  match q with
  | [] => Return seen
  | n :: q1 =>
      match fuel with
      | O => OutOfFuel
      | S fuel' =>
          nbrs ← get_neighbors df_corr thresh n;
          '(q2, seen2) ← visit_neighbors maxsize (elements nbrs) q1 seen;
          bfs_loop fuel' df_corr thresh maxsize q2 seen2
      end
  end.

(** [get_cluster(n)], breadth first from [n]; the queue is bounded by
    [len(nodes)]. *)
Definition get_cluster (df_corr : CorrFrame) (thresh : pyfloat) (n_nodes : nat)
    (n : string) : outcome (gset string) :=
  q ← queue_put n_nodes [] n;
  bfs_loop (S (List.length (corr_index df_corr))) df_corr thresh n_nodes q {[n]}.

(** The [for cn in nodes] loop of [get_feature_clusters]. *)
Fixpoint cluster_loop (df_corr : CorrFrame) (thresh : pyfloat) (n_nodes : nat)
    (todo : list string) (clusters : list (gset string))
  : outcome (list (gset string)) :=
  match todo with
  | [] => Return clusters
  | cn :: rest =>
      if decide (cn ∈ ⋃ clusters) then
        cluster_loop df_corr thresh n_nodes rest clusters
      else
        cl ← get_cluster df_corr thresh n_nodes cn;
        cluster_loop df_corr thresh n_nodes rest (clusters ++ [cl])
  end.

(** [get_feature_clusters(df, cols, thresh, method)]. *)
Definition get_feature_clusters (df : DataFrame) (cols : option (list string))
    (thresh : pyfloat) (method : string) : outcome (list (gset string)) :=
  let df_corr := corr df method in
  let nodes := match cols with None => columns df | Some c => c end in
  cluster_loop df_corr thresh (List.length nodes) nodes [].

End Clusters.

(** ** Python builtins on cells *)

(** Whitespace as [str.strip] sees it. *)
Definition is_space (a : ascii) : bool :=
  let n := nat_of_ascii a in
  (n =? 32) || ((9 <=? n) && (n <=? 13)).

Fixpoint lstrip (s : string) : string :=
  match s with
  | EmptyString => EmptyString
  | String a r => if is_space a then lstrip r else s
  end.

Definition string_rev (s : string) : string :=
  string_of_list_ascii (rev (list_ascii_of_string s)).

Definition rstrip (s : string) : string := string_rev (lstrip (string_rev s)).

(** [s.strip()]. *)
Definition strip (s : string) : string := rstrip (lstrip s).

(** [a == b] on cells. *)
Definition py_eqb (a b : pyval) : bool :=
  match a, b with
  | PInt x, PInt y => Z.eqb x y
  | PInt x, PFloat f => float_eqb (FFin (inject_Z x)) f
  | PFloat f, PInt x => float_eqb f (FFin (inject_Z x))
  | PFloat f, PFloat g => float_eqb f g
  | PStr s, PStr t => String.eqb s t
  | PNone, PNone => true
  | _, _ => false
  end.

(** Truth value of a cell ([bool(val)]). *)
Definition truthy (val : pyval) : bool :=
  match val with
  | PInt z => negb (Z.eqb z 0)
  | PFloat f => negb (float_eqb f (FFin 0))
  | PStr s => negb (String.eqb s "")
  | PNone => false
  end.

(** [pd.isnull(val)] on a scalar: [None] and NaN. *)
Definition isnull (val : pyval) : bool :=
  match val with
  | PNone => true
  | PFloat f => isnan f
  | _ => false
  end.

(** The distinct values of a sequence, by [==]: what [set(...)] and
    [value_counts().index] keep. *)
Fixpoint py_unique (l : list pyval) : list pyval :=
  match l with
  | [] => []
  | v :: r => let u := py_unique r in if existsb (py_eqb v) u then u else v :: u
  end.

(** [a / float(b)] for two counts. *)
Definition div_counts (a b : nat) : outcome pyfloat :=
  if b =? 0 then Raise ZeroDivisionError
  else Return (FFin (inject_Z (Z.of_nat a) / inject_Z (Z.of_nat b))).

(** ** Column detectors *)

(** [df.apply(f)] for an [f] that may raise: column by column, in order. *)
Fixpoint apply_columns {A : Type} (f : list pyval -> outcome A)
    (cols : list (string * list pyval)) : outcome (list (string * A)) :=
  match cols with
  | [] => Return []
  | (name, col) :: rest =>
      x ← f col;
      xs ← apply_columns f rest;
      Return ((name, x) :: xs)
  end.

(** [find_null_cols(df, frac)].  On a frame without rows pandas does not
    call [f] column by column; the statements below are about frames with
    at least one row. *)
Definition find_null_cols (df : DataFrame) (frac : pyfloat) : outcome (list string) :=
  let f := fun col : list pyval =>
    div_counts (List.length (List.filter isnull col)) (df_nrows df) in
  null_fracs ← apply_columns f (df_data df);
  Return (List.map fst (List.filter (fun p => float_geb (snd p) frac) null_fracs)).

(** One column of [find_binary_cols]: whether it is appended. *)
Definition binary_col (col : list pyval) : bool :=
  let unique_vals := py_unique (List.filter (fun v => negb (isnull v)) col) in
  let unique_vals_len := List.length unique_vals in
  if 2 <? unique_vals_len then false
  else
    let inter := List.filter (fun v => py_eqb v (PInt 0) || py_eqb v (PInt 1)) unique_vals in
    List.length inter =? unique_vals_len.

(** [find_binary_cols(df)]. *)
Definition find_binary_cols (df : DataFrame) : list string :=
  List.map fst (List.filter (fun p => binary_col (snd p)) (df_data df)).

(** ** Table summaries *)

(** The unique count of a summary: a number, or the text the streaming
    summary writes when it stopped counting. *)
Inductive uniq_report : Type :=
| NUniq (n : nat)
| NUniqStr (s : string).

(** A value kept in a per-column set of the streaming summary: the parsed
    float, or the stripped text. *)
Inductive cell_key : Type :=
| KFloat (f : pyfloat)
| KStr (s : string).

(** [==] on such values; a float never equals a string. *)
Definition key_eqb (a b : cell_key) : bool :=
  match a, b with
  | KFloat f, KFloat g => float_eqb f g
  | KStr s, KStr t => String.eqb s t
  | _, _ => false
  end.

(** [s.add(k)] on a set kept as the list of its elements, oldest first. *)
Definition set_add (k : cell_key) (s : list cell_key) : list cell_key :=
  if existsb (key_eqb k) s then s else s ++ [k].

(** A row of the frame [summarize_training_data] returns. *)
Record TableSummaryRow : Type := {
  t_attribute : string;
  t_max : pyfloat;
  t_min : pyfloat;
  t_n_null : nat;
  t_n_uniq : nat;
  t_perc_null : pyfloat
}.

(** A row of the frame [summarize_big_training_data] returns. *)
Record StreamSummaryRow : Type := {
  s_attribute : string;
  s_n_null : nat;
  s_perc_null : pyfloat;
  s_max : option pyfloat;
  s_min : option pyfloat;
  s_n_uniq : uniq_report
}.

Section Summaries.

(** The builtin [float] on text, [None] for [ValueError]: a parameter. *)
Variable float_of_string : string -> option pyfloat.

(** [float(val)] on a cell. *)
Definition py_float (val : pyval) : option pyfloat :=
  match val with
  | PInt z => Some (FFin (inject_Z z))
  | PFloat f => Some f
  | PStr s => float_of_string s
  | PNone => None
  end.

(** [_is_null_or_blank(val)]. *)
Definition _is_null_or_blank (val : pyval) : bool :=
  let numeric_zero :=
    match val with
    | PInt _ | PFloat _ => py_eqb val (PInt 0)
    | _ => false
    end in
  if numeric_zero then false else negb (truthy val) || isnull val.

(** The loop of [_get_uniq] over the set of values. *)
Fixpoint uniq_loop (s : list pyval) (null_exists : bool) (n_unique : nat)
  : bool * nat :=
  match s with
  | [] => (null_exists, n_unique)
  | val :: rest =>
      if _is_null_or_blank val then uniq_loop rest true n_unique
      else uniq_loop rest null_exists (n_unique + 1)
  end.

(** [_get_uniq(series)]. *)
Definition _get_uniq (series : list pyval) : nat :=
  let s := py_unique series in
  let '(null_exists, n_unique) := uniq_loop s false 0 in
  if null_exists then n_unique + 1 else n_unique.

(** The loop of [_get_min_max]; [None] when [float] raised [ValueError]. *)
Fixpoint min_max_loop (series : list pyval) (minval maxval : pyfloat)
  : option (pyfloat * pyfloat) :=
  match series with
  | [] => Some (minval, maxval)
  | val :: rest =>
      if _is_null_or_blank val then min_max_loop rest minval maxval
      else
        match py_float val with
        | Some v => min_max_loop rest (py_min minval v) (py_max maxval v)
        | None => None
        end
  end.

(** [_get_min_max(series)]. *)
Definition _get_min_max (series : list pyval) : pyfloat * pyfloat :=
  match min_max_loop series FPosInf FNegInf with
  | None => (FNan, FNan)
  | Some (minval, maxval) =>
      (if isinf minval then FNan else minval,
       if isinf maxval then FNan else maxval)
  end.

(** [n_null / n_rows] between a column of counts and a float, as numpy
    divides: no exception. *)
Definition np_div (a b : nat) : pyfloat :=
  if b =? 0 then (if a =? 0 then FNan else FPosInf)
  else FFin (inject_Z (Z.of_nat a) / inject_Z (Z.of_nat b)).

(** [df[y_name].value_counts(dropna=False).to_dict()]: one entry per
    distinct value, the nulls together. *)
Definition same_label (a b : pyval) : bool := (isnull a && isnull b) || py_eqb a b.

Fixpoint value_counts (col : list pyval) : list (pyval * nat) :=
  match col with
  | [] => []
  | v :: rest =>
      let vc := value_counts rest in
      if existsb (fun p => same_label v (fst p)) vc
      then List.map (fun p => if same_label v (fst p) then (fst p, S (snd p)) else p) vc
      else (v, 1) :: vc
  end.

(** [df[name]]. *)
Definition df_get (df : DataFrame) (name : string) : outcome (list pyval) :=
  match List.find (fun p => String.eqb (fst p) name) (df_data df) with
  | Some p => Return (snd p)
  | None => Raise (KeyError name)
  end.

(** The row [summarize_training_data] builds for one column. *)
Definition summarize_column (n_rows : nat) (colname : string) (col : list pyval)
  : TableSummaryRow :=
  let '(minval, maxval) := _get_min_max col in
  let n_null := List.length (List.filter _is_null_or_blank col) in
  {| t_attribute := colname; t_max := maxval; t_min := minval;
     t_n_null := n_null; t_n_uniq := _get_uniq col;
     t_perc_null := np_div n_null n_rows |}.

(** [summarize_training_data(df, y_name, summary_pkl=None)]. *)
Definition summarize_training_data (df : DataFrame) (y_name : string)
  : outcome (list TableSummaryRow * nat * list (pyval * nat)) :=
  let n_rows := df_nrows df in
  let df_summary :=
    List.map (fun p => summarize_column n_rows (fst p) (snd p)) (df_data df) in
  labels ← df_get df y_name;
  Return (df_summary, n_rows, value_counts labels).

(** *** The streaming summary *)

(** The accumulators of [summarize_big_training_data].  A [defaultdict]
    is a finite map read with its default. *)
Record BigState : Type := {
  n_rows : nat;
  label_counts : gmap string nat;
  null_counts : gmap string nat;
  col_max : gmap string pyfloat;
  col_min : gmap string pyfloat;
  col_numeric : gmap string bool;
  col_uniq_vals : gmap string (list cell_key);
  col_uniq_vals_toomany : gset string
}.

Definition init_state : BigState :=
  {| n_rows := 0; label_counts := ∅; null_counts := ∅; col_max := ∅;
     col_min := ∅; col_numeric := ∅; col_uniq_vals := ∅;
     col_uniq_vals_toomany := ∅ |}.

Definition get_null_count (st : BigState) (c : string) : nat :=
  default 0 (null_counts st !! c).
Definition get_max (st : BigState) (c : string) : pyfloat :=
  default FNegInf (col_max st !! c).
Definition get_min (st : BigState) (c : string) : pyfloat :=
  default FPosInf (col_min st !! c).
Definition get_numeric (st : BigState) (c : string) : bool :=
  default true (col_numeric st !! c).
Definition get_uniq (st : BigState) (c : string) : list cell_key :=
  default [] (col_uniq_vals st !! c).

(** [null_counts[colname] += 1]. *)
Definition count_null (st : BigState) (c : string) : BigState :=
  {| n_rows := n_rows st; label_counts := label_counts st;
     null_counts := <[c := get_null_count st c + 1]> (null_counts st);
     col_max := col_max st; col_min := col_min st;
     col_numeric := col_numeric st; col_uniq_vals := col_uniq_vals st;
     col_uniq_vals_toomany := col_uniq_vals_toomany st |}.

(** The two assignments to [col_max[colname]] and [col_min[colname]]. *)
Definition update_extremes (st : BigState) (c : string) (v : pyfloat) : BigState :=
  {| n_rows := n_rows st; label_counts := label_counts st;
     null_counts := null_counts st;
     col_max := <[c := py_max (get_max st c) v]> (col_max st);
     col_min := <[c := py_min (get_min st c) v]> (col_min st);
     col_numeric := col_numeric st; col_uniq_vals := col_uniq_vals st;
     col_uniq_vals_toomany := col_uniq_vals_toomany st |}.

(** [col_numeric[colname] = False]. *)
Definition flag_non_numeric (st : BigState) (c : string) : BigState :=
  {| n_rows := n_rows st; label_counts := label_counts st;
     null_counts := null_counts st; col_max := col_max st; col_min := col_min st;
     col_numeric := <[c := false]> (col_numeric st);
     col_uniq_vals := col_uniq_vals st;
     col_uniq_vals_toomany := col_uniq_vals_toomany st |}.

(** [uniq_vals_thiscol.add(col_val)] on the set stored under [colname]. *)
Definition add_uniq (st : BigState) (c : string) (k : cell_key) : BigState :=
  {| n_rows := n_rows st; label_counts := label_counts st;
     null_counts := null_counts st; col_max := col_max st; col_min := col_min st;
     col_numeric := col_numeric st;
     col_uniq_vals := <[c := set_add k (get_uniq st c)]> (col_uniq_vals st);
     col_uniq_vals_toomany := col_uniq_vals_toomany st |}.

(** [col_uniq_vals_toomany.add(colname)]. *)
Definition mark_toomany (st : BigState) (c : string) : BigState :=
  {| n_rows := n_rows st; label_counts := label_counts st;
     null_counts := null_counts st; col_max := col_max st; col_min := col_min st;
     col_numeric := col_numeric st; col_uniq_vals := col_uniq_vals st;
     col_uniq_vals_toomany := {[c]} ∪ col_uniq_vals_toomany st |}.

(** [n_rows += 1]. *)
Definition count_row (st : BigState) : BigState :=
  {| n_rows := n_rows st + 1; label_counts := label_counts st;
     null_counts := null_counts st; col_max := col_max st; col_min := col_min st;
     col_numeric := col_numeric st; col_uniq_vals := col_uniq_vals st;
     col_uniq_vals_toomany := col_uniq_vals_toomany st |}.

(** [label_counts[label] += 1]. *)
Definition count_label (st : BigState) (label : string) : BigState :=
  {| n_rows := n_rows st;
     label_counts := <[label := default 0 (label_counts st !! label) + 1]> (label_counts st);
     null_counts := null_counts st; col_max := col_max st; col_min := col_min st;
     col_numeric := col_numeric st; col_uniq_vals := col_uniq_vals st;
     col_uniq_vals_toomany := col_uniq_vals_toomany st |}.

(** The null count and the extremes of one cell: the stripped value, or
    its float when the column is still numeric and the value parses; this
    is the value [col_val] holds when it reaches the set. *)
Definition update_numbers (st : BigState) (colname raw : string)
  : cell_key * BigState :=
  let col_val := strip raw in
  let st1 := if String.eqb col_val "" then count_null st colname else st in
  if negb (String.eqb col_val "") && get_numeric st1 colname then
    match float_of_string col_val with
    | Some v => (KFloat v, update_extremes st1 colname v)
    | None => (KStr col_val, flag_non_numeric st1 colname)
    end
  else (KStr col_val, st1).

(** The body of [for colname in colnames] for the cell [raw]. *)
Definition update_col (n_uniq_toomany : nat) (st : BigState) (colname raw : string)
  : BigState :=
  let '(col_val, st2) := update_numbers st colname raw in
  let st3 :=
    if decide (colname ∈ col_uniq_vals_toomany st2) then st2
    else add_uniq st2 colname col_val in
  if n_uniq_toomany <? List.length (get_uniq st3 colname)
  then mark_toomany st3 colname else st3.

(** [dict(zip(colnames, row))]: the last pair of a name wins. *)
Definition make_row_dict (colnames row : list string) : gmap string string :=
  list_to_map (reverse (zip colnames row)).

(** [for colname in colnames] over one row. *)
Fixpoint cols_loop (n_uniq_toomany : nat) (row_dict : gmap string string)
    (colnames : list string) (st : BigState) : outcome BigState :=
  match colnames with
  | [] => Return st
  | colname :: rest =>
      match row_dict !! colname with
      | None => Raise (KeyError colname)
      | Some raw =>
          cols_loop n_uniq_toomany row_dict rest
                    (update_col n_uniq_toomany st colname raw)
      end
  end.

(** The label update of one row. *)
Definition update_label (y_name : string) (row_dict : gmap string string)
    (st : BigState) : outcome BigState :=
  if decide (y_name ∈ col_uniq_vals_toomany st) then Return st
  else match row_dict !! y_name with
       | None => Raise (KeyError y_name)
       | Some label => Return (count_label st label)
       end.

(** The body of [for t, row in enumerate(reader)]. *)
Definition process_row (y_name : string) (n_uniq_toomany : nat)
    (colnames : list string) (st : BigState) (row : list string) : outcome BigState :=
  let st0 := count_row st in
  let row_dict := make_row_dict colnames row in
  st1 ← update_label y_name row_dict st0;
  cols_loop n_uniq_toomany row_dict colnames st1.

Fixpoint rows_loop (y_name : string) (n_uniq_toomany : nat)
    (colnames : list string) (rows : list (list string)) (st : BigState)
  : outcome BigState :=
  match rows with
  | [] => Return st
  | row :: rest =>
      st' ← process_row y_name n_uniq_toomany colnames st row;
      rows_loop y_name n_uniq_toomany colnames rest st'
  end.

(** The text ['> {}'.format(n_uniq_toomany)]. *)
Definition toomany_text (n_uniq_toomany : nat) : string :=
  "> " +:+ pretty n_uniq_toomany.

(** The summary row of one column, after the pass. *)
Definition summary_row (n_uniq_toomany : nat) (st : BigState) (colname : string)
  : outcome StreamSummaryRow :=
  perc ← div_counts (get_null_count st colname) (n_rows st);
  let colmax :=
    if get_numeric st colname
    then (if isinf (get_max st colname) then None else Some (get_max st colname))
    else None in
  let colmin :=
    if get_numeric st colname
    then (if isinf (get_min st colname) then None else Some (get_min st colname))
    else None in
  let n_uniq :=
    if decide (colname ∈ col_uniq_vals_toomany st)
    then NUniqStr (toomany_text n_uniq_toomany)
    else NUniq (List.length (get_uniq st colname)) in
  Return {| s_attribute := colname; s_n_null := get_null_count st colname;
            s_perc_null := perc; s_max := colmax; s_min := colmin;
            s_n_uniq := n_uniq |}.

Fixpoint summary_rows (n_uniq_toomany : nat) (st : BigState)
    (colnames : list string) : outcome (list StreamSummaryRow) :=
  match colnames with
  | [] => Return []
  | colname :: rest =>
      r ← summary_row n_uniq_toomany st colname;
      rs ← summary_rows n_uniq_toomany st rest;
      Return (r :: rs)
  end.

(** [summarize_big_training_data] on the records [csv.reader] yields, the
    header first; progress output and the pickle are left out. *)
Definition summarize_big_training_data (reader : list (list string))
    (y_name : string) (n_uniq_toomany : nat)
  : outcome (list StreamSummaryRow * nat * option (gmap string nat)) :=
  match reader with
  | [] => Raise StopIteration
  | colnames :: rows =>
      st ← rows_loop y_name n_uniq_toomany colnames rows init_state;
      df_summary ← summary_rows n_uniq_toomany st colnames;
      let label_counts :=
        if decide (y_name ∈ col_uniq_vals_toomany st) then None
        else Some (label_counts st) in
      Return (df_summary, n_rows st, label_counts)
  end.

End Summaries.

(** ** The other functions of the module *)

(** [find_uninfo_cols(df)]: the columns whose non-null values have
    [nunique() == 1]. *)
Definition find_uninfo_cols (df : DataFrame) : list string :=
  let counts :=
    List.map (fun p => (fst p,
                List.length (py_unique (List.filter (fun v => negb (isnull v)) (snd p)))))
             (df_data df) in
  List.map fst (List.filter (fun p => snd p =? 1) counts).

(** *** [df_equal] *)

(** What [df_equal] does: it returns a boolean, or [len] and [np.isnan]
    raise [TypeError]; [IndexError] is what [l2[t]] would raise past the end
    of [l2]. *)
Inductive verdict : Type :=
| Verdict (b : bool)
| TypeError
| IndexError.

(** [df.shape]. *)
Definition df_shape (df : DataFrame) : nat * nat :=
  (df_nrows df, List.length (df_data df)).

(** [df.values.reshape(n_elements, 1)], row after row, with the cells as
    the frame holds them; a frame is rectangular, the default only fills
    what a frame never lacks. *)
Definition df_values (df : DataFrame) : list pyval :=
  List.concat (List.map (fun i => List.map (fun p => nth i (snd p) PNone) (df_data df))
                        (seq 0 (df_nrows df))).

Definition is_str (v : pyval) : bool :=
  match v with PStr _ => true | _ => false end.

(** [np.isnan(v)], [None] for [TypeError]: numpy has no [isnan] for an
    object, which [None], a text and an integer beyond 64 bits are to it. *)
Definition np_isnan (v : pyval) : option bool :=
  match v with
  | PInt z => if ((- 2 ^ 63 <=? z) && (z <? 2 ^ 64))%Z then Some false else None
  | PFloat f => Some (isnan f)
  | PStr _ => None
  | PNone => None
  end.

(** One turn of the comparison loop: [Verdict true] to go on to the next
    pair, [Verdict false] for [return False]. *)
Definition cells_equal (a b : pyval) : verdict :=
  let regular := Verdict (py_eqb a b) in
  if negb (is_str a) && negb (is_str b) then
    match np_isnan a with
    | None => TypeError
    | Some false => regular
    | Some true =>
        match np_isnan b with
        | None => TypeError
        | Some true => Verdict true
        | Some false => regular
        end
    end
  else regular.

(** [for t in range(len(l1))]. *)
Fixpoint equal_loop (l1 l2 : list pyval) : verdict :=
  match l1 with
  | [] => Verdict true
  | a :: r1 =>
      match l2 with
      | [] => IndexError
      | b :: r2 =>
          match cells_equal a b with
          | Verdict true => equal_loop r1 r2
          | v => v
          end
      end
  end.

(** [df_equal(df1, df2)], with [decimals] left at [None]: nothing is
    rounded.  [np.squeeze] turns a single element into an array without
    length. *)
Definition df_equal (df1 df2 : DataFrame) : verdict :=
  if negb ((fst (df_shape df1) =? fst (df_shape df2))
           && (snd (df_shape df1) =? snd (df_shape df2)))
  then Verdict false
  else
    let n_elements := fst (df_shape df1) * snd (df_shape df1) in
    if n_elements =? 1 then TypeError
    else equal_loop (df_values df1) (df_values df2).

(** *** [summarize_nulls] *)

(** A row of the null summary, with the values of the additional
    dictionaries. *)
Record NullRow (A : Type) : Type := {
  nr_column : string;
  nr_null_train : nat;
  nr_perc_train : pyfloat;
  nr_null_test : nat;
  nr_perc_test : pyfloat;
  nr_info : list A
}.
Arguments nr_column {A} _.
Arguments nr_null_train {A} _.
Arguments nr_perc_train {A} _.
Arguments nr_null_test {A} _.
Arguments nr_perc_test {A} _.
Arguments nr_info {A} _.

(** [100.0 * num / n]. *)
Definition percent (num n : nat) : outcome pyfloat :=
  if n =? 0 then Raise ZeroDivisionError
  else Return (FFin (inject_Z 100 * inject_Z (Z.of_nat num) / inject_Z (Z.of_nat n))).

(** [[d[c] for d in add_info_dicts]]. *)
Fixpoint lookup_all {A : Type} (dicts : list (gmap string A)) (c : string)
  : outcome (list A) :=
  match dicts with
  | [] => Return []
  | d :: rest =>
      match d !! c with
      | None => Raise (KeyError c)
      | Some x => xs ← lookup_all rest c; Return (x :: xs)
      end
  end.

(** The number of nulls of column [c] in the test frame, all its rows
    when the frame has no such column. *)
Definition null_count_test (test : DataFrame) (c : string) : nat :=
  match df_get test c with
  | Return col => List.length (List.filter isnull col)
  | _ => df_nrows test
  end.

(** [for c in train.columns]. *)
Fixpoint nulls_loop {A : Type} (n_train : nat) (test : DataFrame)
    (add_info_dicts : list (gmap string A)) (cols : list (string * list pyval))
  : outcome (list (NullRow A)) :=
  match cols with
  | [] => Return []
  | (c, col) :: rest =>
      let num_nan_train := List.length (List.filter isnull col) in
      perc_nan_train ← percent num_nan_train n_train;
      let num_nan_test := null_count_test test c in
      perc_nan_test ← percent num_nan_test (df_nrows test);
      if negb (num_nan_train =? 0) || (0 <? num_nan_test) then
        info ← lookup_all add_info_dicts c;
        rows ← nulls_loop n_train test add_info_dicts rest;
        Return ({| nr_column := c; nr_null_train := num_nan_train;
                   nr_perc_train := perc_nan_train; nr_null_test := num_nan_test;
                   nr_perc_test := perc_nan_test; nr_info := info |} :: rows)
      else nulls_loop n_train test add_info_dicts rest
  end.

(** [summarize_nulls(train, test, add_info_names, add_info_dicts)]: the
    column names and the rows it hands to [pd.DataFrame]; the two printed
    lines are left out.  The names of the columns of a frame are taken to
    be distinct, so that [df[c]] is a column. *)
Definition summarize_nulls {A : Type} (train test : DataFrame)
    (add_info_names : list string) (add_info_dicts : list (gmap string A))
  : outcome (list string * list (NullRow A)) :=
  null_summary ← nulls_loop (df_nrows train) test add_info_dicts (df_data train);
  let colnames := ["Column"; "Null Train"; "% Train"; "Null Test"; "% Test"] in
  Return (colnames ++ add_info_names, null_summary).

(** *** [count_big_file_value_counts] *)

(** The dictionary [csv.DictReader] makes of a record: the cells under
    the field names, the last of a repeated name winning, and [None] under
    the names the record is too short for.  The surplus cells of a long
    record go under the key [None], which is no column name. *)
Definition dict_reader_row (fieldnames row : list string)
  : gmap string (option string) :=
  let d : gmap string (option string) := Some <$> make_row_dict fieldnames row in
  if List.length row <? List.length fieldnames
  then foldl (fun d key => <[key := None]> d) d (drop (List.length row) fieldnames)
  else d.

(** [for row in reader]: [DictReader] passes over empty records. *)
Fixpoint count_loop (fieldnames : list string) (colname : string)
    (rows : list (list string)) (value_counts : gmap (option string) nat)
  : outcome (gmap (option string) nat) :=
  match rows with
  | [] => Return value_counts
  | row :: rest =>
      match row with
      | [] => count_loop fieldnames colname rest value_counts
      | _ =>
          match dict_reader_row fieldnames row !! colname with
          | None => Raise (KeyError colname)
          | Some v =>
              count_loop fieldnames colname rest
                (<[v := default 0 (value_counts !! v) + 1]> value_counts)
          end
      end
  end.

(** [count_big_file_value_counts] on the records [csv.reader] yields; the
    first is the header, and a source without one has no rows. *)
Definition count_big_file_value_counts (reader : list (list string))
    (colname : string) : outcome (gmap (option string) nat) :=
  match reader with
  | [] => Return ∅
  | fieldnames :: rows => count_loop fieldnames colname rows ∅
  end.

(** ** Vocabulary of the statements *)

(** [m] is a neighbour of [n] at threshold [t]: what [get_neighbors(n)]
    holds when it returns. *)
Definition edge (fr : CorrFrame) (t : pyfloat) (n m : string) : Prop :=
  m ∈ corr_index fr ∧ m ≠ n ∧ float_geb (corr_at fr m n) t = true.

(** Every neighbour of [x] is in [cl], and [x] is a label of the frame. *)
Definition closed_at (fr : CorrFrame) (t : pyfloat) (cl : gset string) (x : string)
  : Prop :=
  x ∈ corr_index fr ∧ ∀ y, edge fr t x y → y ∈ cl.

(** A cluster that contains the neighbours of each of its members. *)
Definition closed_cluster (fr : CorrFrame) (t : pyfloat) (cl : gset string) : Prop :=
  ∀ x, x ∈ cl → closed_at fr t cl x.

(** The labels of a correlation frame, as a set. *)
Definition labels (fr : CorrFrame) : gset string := list_to_set (corr_index fr).

(** No two clusters of the list share a column. *)
Definition pairwise_disjoint (cls : list (gset string)) : Prop :=
  ∀ i j a b, i ≠ j → cls !! i = Some a → cls !! j = Some b → a ## b.

(** The coefficient of two labels does not depend on their order. *)
Definition corr_symmetric (fr : CorrFrame) : Prop :=
  ∀ a b, a ∈ corr_index fr → b ∈ corr_index fr → corr_at fr a b = corr_at fr b a.

(** A column that has a neighbour candidate at threshold [t] passes the
    threshold with itself: so it is for a threshold of at most 1 when the
    diagonal is 1, and for a constant column, whose coefficients are all
    NaN. *)
Definition self_correlated (fr : CorrFrame) (t : pyfloat) : Prop :=
  ∀ n m, n ∈ corr_index fr → m ∈ corr_index fr →
         float_geb (corr_at fr m n) t = true → float_geb (corr_at fr n n) t = true.

(** The considered columns of a call. *)
Definition considered (df : DataFrame) (cols : option (list string)) : list string :=
  match cols with None => columns df | Some c => c end.

(** The value is 0 or 1, as [{0, 1}] holds it. *)
Definition is_zero_or_one (v : pyval) : bool :=
  py_eqb v (PInt 0) || py_eqb v (PInt 1).

(** No value of the list equals a later one. *)
Fixpoint py_distinct (l : list pyval) : bool :=
  match l with
  | [] => true
  | v :: r => negb (existsb (py_eqb v) r) && py_distinct r
  end.

(** The share of [isnull] entries of a column among [n] rows. *)
Definition null_fraction (n : nat) (col : list pyval) : Q :=
  inject_Z (Z.of_nat (List.length (List.filter isnull col))) / inject_Z (Z.of_nat n).

(** One change of the accumulators during the pass: a row is counted, a
    label is counted, or a cell is taken in.  Every state the loops of
    [summarize_big_training_data] go through is reached by such steps. *)
Inductive run_step (float_of_string : string → option pyfloat) (n_uniq_toomany : nat)
  : BigState → BigState → Prop :=
| step_count_row st :
    run_step float_of_string n_uniq_toomany st (count_row st)
| step_count_label st label :
    run_step float_of_string n_uniq_toomany st (count_label st label)
| step_update_col st colname raw :
    run_step float_of_string n_uniq_toomany st
      (update_col float_of_string n_uniq_toomany st colname raw).

(** The sizes of the sets: at most the ceiling while the column counts,
    one more once it is frozen. *)
Definition sets_bounded (ceiling : nat) (st : BigState) : Prop :=
  ∀ c, (c ∉ col_uniq_vals_toomany st → List.length (get_uniq st c) ≤ ceiling) ∧
       (c ∈ col_uniq_vals_toomany st → List.length (get_uniq st c) = ceiling + 1).



(** *** One column of the streaming summary *)

(** The accumulators of one column. *)
Record ColAcc : Type := {
  a_null : nat;
  a_max : pyfloat;
  a_min : pyfloat;
  a_numeric : bool;
  a_uniq : list cell_key;
  a_toomany : bool
}.

(** The accumulators of column [c] in a state of the pass. *)
Definition col_view (st : BigState) (c : string) : ColAcc :=
  {| a_null := get_null_count st c; a_max := get_max st c; a_min := get_min st c;
     a_numeric := get_numeric st c; a_uniq := get_uniq st c;
     a_toomany := bool_decide (c ∈ col_uniq_vals_toomany st) |}.

Definition init_acc : ColAcc :=
  {| a_null := 0; a_max := FNegInf; a_min := FPosInf; a_numeric := true;
     a_uniq := []; a_toomany := false |}.

(** [update_numbers] read on the accumulators of the cell's column. *)
Definition acc_numbers (float_of_string : string → option pyfloat)
    (a : ColAcc) (raw : string) : cell_key * ColAcc :=
  let col_val := strip raw in
  let null1 := if String.eqb col_val "" then a_null a + 1 else a_null a in
  if negb (String.eqb col_val "") && a_numeric a then
    match float_of_string col_val with
    | Some v =>
        (KFloat v,
         {| a_null := null1; a_max := py_max (a_max a) v; a_min := py_min (a_min a) v;
            a_numeric := a_numeric a; a_uniq := a_uniq a; a_toomany := a_toomany a |})
    | None =>
        (KStr col_val,
         {| a_null := null1; a_max := a_max a; a_min := a_min a;
            a_numeric := false; a_uniq := a_uniq a; a_toomany := a_toomany a |})
    end
  else
    (KStr col_val,
     {| a_null := null1; a_max := a_max a; a_min := a_min a;
        a_numeric := a_numeric a; a_uniq := a_uniq a; a_toomany := a_toomany a |}).

(** [update_col] read on the accumulators of the cell's column. *)
Definition acc_step (float_of_string : string → option pyfloat) (ceiling : nat)
    (a : ColAcc) (raw : string) : ColAcc :=
  let '(k, a2) := acc_numbers float_of_string a raw in
  let uniq3 := if a_toomany a2 then a_uniq a2 else set_add k (a_uniq a2) in
  {| a_null := a_null a2; a_max := a_max a2; a_min := a_min a2;
     a_numeric := a_numeric a2; a_uniq := uniq3;
     a_toomany := a_toomany a2 || (ceiling <? List.length uniq3) |}.

(** The summary row of a column, from its accumulators after [n] rows. *)
Definition acc_summary (ceiling n : nat) (c : string) (a : ColAcc) : StreamSummaryRow :=
  {| s_attribute := c; s_n_null := a_null a;
     s_perc_null := FFin (inject_Z (Z.of_nat (a_null a)) / inject_Z (Z.of_nat n));
     s_max := if a_numeric a then (if isinf (a_max a) then None else Some (a_max a))
              else None;
     s_min := if a_numeric a then (if isinf (a_min a) then None else Some (a_min a))
              else None;
     s_n_uniq := if a_toomany a then NUniqStr (toomany_text ceiling)
                 else NUniq (List.length (a_uniq a)) |}.

(** The cells of column [j] of the data rows, top down. *)
Definition column_cells (j : nat) (rows : list (list string)) : list string :=
  List.map (fun row => nth j row "") rows.

(** The accumulators of a column after its cells. *)
Definition column_acc (float_of_string : string → option pyfloat) (ceiling : nat)
    (cells : list string) : ColAcc :=
  fold_left (acc_step float_of_string ceiling) cells init_acc.

(** A header without repeated names over rows of its width. *)
Definition rectangular (colnames : list string) (rows : list (list string)) : Prop :=
  NoDup colnames ∧ Forall (fun row => List.length row = List.length colnames) rows.

(** The value a cell leaves in the set of its column, and whether the
    column is still numeric after it. *)
Definition cell_track (float_of_string : string → option pyfloat)
    (numeric : bool) (raw : string) : cell_key * bool :=
  let col_val := strip raw in
  if negb (String.eqb col_val "") && numeric then
    match float_of_string col_val with
    | Some v => (KFloat v, numeric)
    | None => (KStr col_val, false)
    end
  else (KStr col_val, numeric).

(** The values the cells of a column leave, in order. *)
Fixpoint tracked_keys (float_of_string : string → option pyfloat)
    (numeric : bool) (cells : list string) : list cell_key :=
  match cells with
  | [] => []
  | raw :: rest =>
      let '(k, numeric') := cell_track float_of_string numeric raw in
      k :: tracked_keys float_of_string numeric' rest
  end.

(** The distinct values among [ks], each at its first place, after those
    of [s]. *)
Definition add_keys (s : list cell_key) (ks : list cell_key) : list cell_key :=
  fold_left (fun s k => set_add k s) ks s.

Definition distinct_keys (ks : list cell_key) : list cell_key := add_keys [] ks.

(** *** The table of a stream *)

(** The in-memory table with the cells of the stream: every cell is the
    text the reader yields. *)
Definition frame_of_rows (colnames : list string) (rows : list (list string))
  : DataFrame :=
  {| df_nrows := List.length rows;
     df_data := imap (fun j c => (c, List.map PStr (column_cells j rows))) colnames |}.

(** An extreme of the table summary (NaN when there is none) against one
    of the streaming summary ([None] when there is none). *)
Definition same_extreme (t : pyfloat) (s : option pyfloat) : Prop :=
  match s with
  | Some v => t = v
  | None => t = FNan
  end.

(** A unique count of the table summary against one of the streaming
    summary, which is the too-many text above the ceiling. *)
Definition same_uniq (ceiling : nat) (t : nat) (s : uniq_report) : Prop :=
  s = if ceiling <? t then NUniqStr (toomany_text ceiling) else NUniq t.

(** *** The other functions *)

(** A cell [np.isnan] accepts, or a text. *)
Definition plain_cell (v : pyval) : bool :=
  match v with
  | PInt z => ((- 2 ^ 63 <=? z) && (z <? 2 ^ 64))%Z
  | PFloat _ => true
  | PStr _ => true
  | PNone => false
  end.

(** The number of [isnull] cells of a column. *)
Definition null_cells (col : list pyval) : nat :=
  List.length (List.filter isnull col).

(** The sum of the counts of a dictionary of counts. *)
Definition total_count {K : Type} `{Countable K} (m : gmap K nat) : nat :=
  map_fold (fun _ v acc => v + acc) 0 m.



(** Two cells [df_equal] takes for equal: [==] holds, or both are NaN. *)
Definition cells_match (a b : pyval) : bool :=
  (isnull a && isnull b) || py_eqb a b.

(** Whether [summarize_nulls] keeps a column of the training frame. *)
Definition null_reported (test : DataFrame) (p : string * list pyval) : bool :=
  (0 <? null_cells (snd p)) || (0 <? null_count_test test (fst p)).

(** [100.0 * num / n] as a rational. *)
Definition percent_of (num n : nat) : Q :=
  inject_Z 100 * inject_Z (Z.of_nat num) / inject_Z (Z.of_nat n).

(** The records [csv.DictReader] turns into dictionaries: those after the
    header that are not empty. *)
Definition data_records (reader : list (list string)) : list (list string) :=
  List.filter (fun row => match row with [] => false | _ => true end) (tail reader).

(** The extremes of a column are in order, or no value was read. *)
Definition extremes_ordered (mn mx : pyfloat) : Prop :=
  (mn = FPosInf ∧ mx = FNegInf) ∨ float_leb mn mx = true.

(** The cell is the empty text. *)
Definition empty_text (v : pyval) : bool := py_eqb v (PStr "").

(** ** Concrete inputs *)

Module Examples.

Definition digit_of (a : ascii) : option Z :=
  let n := nat_of_ascii a in
  if (48 <=? n) && (n <=? 57) then Some (Z.of_nat (n - 48)) else None.

(** The digits of [s] read in base ten after [acc], with their number. *)
Fixpoint digits_value (s : string) (acc : Z) (len : nat) : option (Z * nat) :=
  match s with
  | EmptyString => Some (acc, len)
  | String a r =>
      match digit_of a with
      | Some d => digits_value r (10 * acc + d)%Z (S len)
      | None => None
      end
  end.

(** The text before the first dot, and the text after it if there is one. *)
Fixpoint split_dot (s : string) : string * option string :=
  match s with
  | EmptyString => (EmptyString, None)
  | String a r =>
      if Ascii.eqb a "."%char then (EmptyString, Some r)
      else let '(i, f) := split_dot r in (String a i, f)
  end.

(** An unsigned decimal literal: digits, with an optional fraction. *)
Definition unsigned_decimal (s : string) : option Q :=
  let '(i, f) := split_dot s in
  match digits_value i 0 0, f with
  | Some (iv, il), None => if il =? 0 then None else Some (inject_Z iv)
  | Some (iv, il), Some fs =>
      match digits_value fs 0 0 with
      | Some (fv, fl) =>
          if (il =? 0) && (fl =? 0) then None
          else Some (inject_Z iv + inject_Z fv / inject_Z (10 ^ Z.of_nat fl))%Q
      | None => None
      end
  | None, _ => None
  end.

(** An instance of the [float] parameter for the examples: signed decimal
    literals between optional blanks.  The builtin also reads exponents,
    [inf] and [nan]; no example uses them. *)
Definition decimal_float (s : string) : option pyfloat :=
  match strip s with
  | String "-" r => FFin ∘ Qopp <$> unsigned_decimal r
  | String "+" r => FFin <$> unsigned_decimal r
  | t => FFin <$> unsigned_decimal t
  end.

(** A frame with the single column [X]. *)
Definition one_column (col : list pyval) : DataFrame :=
  {| df_nrows := List.length col; df_data := [("X", col)] |}.

(** A correlation frame over the labels [A] and [B] whose two columns
    correlate perfectly. *)
Definition corr_AB : CorrFrame :=
  {| corr_index := ["A"; "B"]; corr_at := fun _ _ => FFin 1 |}.

Definition frame_AB : DataFrame :=
  {| df_nrows := 2;
     df_data := [("A", [PInt 1; PInt 2]); ("B", [PInt 2; PInt 4])] |}.

(** A stand-in for [DataFrame.corr] on [frame_AB]. *)
Definition corr_of_AB (df : DataFrame) (method : string) : CorrFrame := corr_AB.

(** Three columns that correlate perfectly. *)
Definition corr_ABC : CorrFrame :=
  {| corr_index := ["A"; "B"; "C"]; corr_at := fun _ _ => FFin 1 |}.

Definition frame_ABC : DataFrame :=
  {| df_nrows := 2;
     df_data := [("A", [PInt 1; PInt 2]); ("B", [PInt 2; PInt 4]);
                 ("C", [PInt 3; PInt 6])] |}.

Definition corr_of_ABC (df : DataFrame) (method : string) : CorrFrame := corr_ABC.

(** The columns [A] and [B] correlate perfectly and [C] is constant: its
    coefficients are NaN. *)
Definition corr_AB_constC : CorrFrame :=
  {| corr_index := ["A"; "B"; "C"];
     corr_at := fun m n =>
       if String.eqb m "C" || String.eqb n "C" then FNan else FFin 1 |}.

Definition frame_AB_constC : DataFrame :=
  {| df_nrows := 3;
     df_data := [("A", [PInt 1; PInt 2; PInt 3]); ("B", [PInt 1; PInt 2; PInt 3]);
                 ("C", [PInt 5; PInt 5; PInt 5])] |}.

Definition corr_of_AB_constC (df : DataFrame) (method : string) : CorrFrame :=
  corr_AB_constC.

End Examples.

Module Samples.

(** [frame_AB] with a column of text, which [corr] leaves out. *)
Definition frame_AB_text : DataFrame :=
  {| df_nrows := 2;
     df_data := [("A", [PInt 1; PInt 2]); ("B", [PInt 2; PInt 4]);
                 ("T", [PStr "x"; PStr "y"])] |}.

(** A frame with the single column [X] of two cells. *)
Definition two_rows (a b : pyval) : DataFrame :=
  {| df_nrows := 2; df_data := [("X", [a; b])] |}.

(** A frame with the columns [X] and [Y]. *)
Definition frame_XY (x y : list pyval) : DataFrame :=
  {| df_nrows := List.length x; df_data := [("X", x); ("Y", y)] |}.

End Samples.

(** * Proofs *)

(** ** Floats *)


(** ** The neighbours of a column *)

Section ClusterFacts.

Variable fr : CorrFrame.
Variable t : pyfloat.

Lemma get_neighbors_Return n nb :
  get_neighbors fr t n = Return nb →
  n ∈ corr_index fr ∧ ∀ m, m ∈ nb ↔ edge fr t n m.
Proof.
  unfold get_neighbors, edge.
  destruct (decide (n ∈ corr_index fr)) as [Hn|]; [|done].
  set (N := list_to_set _).
  assert (HN : ∀ m, m ∈ N ↔ m ∈ corr_index fr ∧ float_geb (corr_at fr m n) t = true).
  { intros m. unfold N. rewrite elem_of_list_to_set, list_elem_of_filter. tauto. }
  destruct (decide (N = ∅)) as [He|Hne].
  - intros [= <-]. split; [done|]. intros m. rewrite He. split; [set_solver|].
    intros (Hm & _ & Hg). assert (m ∈ N) by (apply HN; done). set_solver.
  - destruct (decide (n ∈ N)); [|done]. intros [= <-]. split; [done|].
    intros m. rewrite elem_of_difference, HN, not_elem_of_singleton. tauto.
Qed.

Lemma get_neighbors_raises n e :
  get_neighbors fr t n = Raise e → e = KeyError n.
Proof.
  unfold get_neighbors. repeat case_decide; congruence.
Qed.

Lemma get_neighbors_finishes n :
  get_neighbors fr t n ≠ Blocks ∧ get_neighbors fr t n ≠ OutOfFuel.
Proof.
  unfold get_neighbors. repeat case_decide; done.
Qed.

Lemma get_neighbors_unknown n :
  n ∉ corr_index fr → get_neighbors fr t n = Raise (KeyError n).
Proof.
  unfold get_neighbors. intros. by rewrite decide_False.
Qed.

(** ** The traversal *)

Lemma queue_put_Return k q x q' :
  queue_put k q x = Return q' → q' = q ++ [x].
Proof. unfold queue_put. case_match; congruence. Qed.

Lemma queue_put_outcome k q x :
  queue_put k q x = Return (q ++ [x]) ∨ queue_put k q x = Blocks.
Proof. unfold queue_put. case_match; auto. Qed.

(** The first [put] finds the queue empty. *)
Lemma get_cluster_eq k n :
  get_cluster fr t k n
  = bfs_loop (S (List.length (corr_index fr))) fr t k [n] {[n]}.
Proof. unfold get_cluster, queue_put. by destruct k. Qed.

Lemma visit_neighbors_Return k nbrs q seen q2 seen2 :
  visit_neighbors k nbrs q seen = Return (q2, seen2) →
  ∃ new, q2 = q ++ new ∧ seen2 = seen ∪ list_to_set new ∧
         (∀ x, x ∈ new → x ∈ nbrs ∧ x ∉ seen) ∧
         (∀ x, x ∈ nbrs → x ∈ seen2).
Proof.
  revert q seen. induction nbrs as [|n2 rest IH]; intros q seen; simpl.
  - intros [= <- <-]. exists []. rewrite app_nil_r. set_solver.
  - destruct (decide (n2 ∈ seen)) as [Hin|Hnin].
    + intros H. destruct (IH _ _ H) as (new & -> & -> & Hnew & Hall).
      exists new. split_and!; [done|done| |].
      * intros x Hx. destruct (Hnew x Hx). set_solver.
      * intros x [->|Hx]%elem_of_cons; [set_solver|by apply Hall].
    + destruct (queue_put k q n2) as [q'| | |] eqn:Hput; simpl; try done.
      apply queue_put_Return in Hput as ->. intros H.
      destruct (IH _ _ H) as (new & -> & -> & Hnew & Hall).
      exists (n2 :: new). split_and!.
      * by rewrite <- app_assoc.
      * set_solver.
      * intros x [->|Hx]%elem_of_cons; [set_solver|].
        destruct (Hnew x Hx). set_solver.
      * intros x [->|Hx]%elem_of_cons; [set_solver|by apply Hall].
Qed.

Lemma visit_neighbors_outcome k nbrs q seen :
  (∃ r, visit_neighbors k nbrs q seen = Return r) ∨
  visit_neighbors k nbrs q seen = Blocks.
Proof.
  revert q seen. induction nbrs as [|n2 rest IH]; intros q seen; simpl; [eauto|].
  case_decide; [apply IH|].
  destruct (queue_put_outcome k q n2) as [-> | ->]; simpl; [apply IH|auto].
Qed.

(** The unseen labels and the queue together shrink at each turn of the
    traversal: the fuel of [get_cluster] is never used up. *)
Lemma visit_neighbors_measure k nbrs q seen q2 seen2 (I : gset string) :
  (∀ x, x ∈ nbrs → x ∈ I) →
  visit_neighbors k nbrs q seen = Return (q2, seen2) →
  size (I ∖ seen2) + List.length q2 ≤ size (I ∖ seen) + List.length q.
Proof.
  revert q seen. induction nbrs as [|n2 rest IH]; intros q seen HI; simpl.
  - intros [= <- <-]. lia.
  - case_decide as Hin.
    + apply IH. intros x Hx. apply HI. by right.
    + destruct (queue_put k q n2) as [q'| | |] eqn:Hput; simpl; try done.
      apply queue_put_Return in Hput as ->. intros H.
      apply IH in H; [|intros x Hx; apply HI; by right].
      rewrite length_app in H. simpl in H.
      assert (size (I ∖ ({[n2]} ∪ seen)) < size (I ∖ seen)); [|lia].
      apply subset_size. assert (n2 ∈ I) by (apply HI; by left). set_solver.
Qed.

Lemma bfs_loop_fuel fuel k q seen :
  size (labels fr ∖ seen) + List.length q ≤ fuel →
  bfs_loop fuel fr t k q seen ≠ OutOfFuel.
Proof.
  revert q seen. induction fuel as [|fuel IH]; intros q seen Hm.
  - destruct q; simpl in *; [done|lia].
  - destruct q as [|n q1]; simpl; [done|].
    destruct (get_neighbors fr t n) as [nb| | |] eqn:Hnb; simpl; try done.
    2: by destruct (get_neighbors_finishes n).
    destruct (visit_neighbors k (elements nb) q1 seen) as [[q2 seen2]| | |] eqn:Hv;
      simpl; try done.
    + apply IH. apply visit_neighbors_measure with (I := labels fr) in Hv.
      * cbn [List.length] in Hm. lia.
      * intros x Hx%elem_of_elements.
        apply get_neighbors_Return in Hnb as [_ Hnb]. apply Hnb in Hx as [Hx _].
        by apply elem_of_list_to_set.
    + destruct (visit_neighbors_outcome k (elements nb) q1 seen) as [[r Hr]|Hr];
        congruence.
Qed.

Lemma size_list_to_set_le (l : list string) :
  size (list_to_set l : gset string) ≤ List.length l.
Proof.
  induction l as [|x l IH].
  - change (size (∅ : gset string) ≤ 0). by rewrite size_empty.
  - change (size ({[x]} ∪ list_to_set l : gset string) ≤ S (List.length l)).
    rewrite size_union_alt, size_singleton.
    match goal with |- 1 + size ?X ≤ _ => assert (size X ≤ List.length l) end; [|lia].
    etrans; [apply subseteq_size|exact IH]. set_solver.
Qed.

Lemma size_labels_le : size (labels fr) ≤ List.length (corr_index fr).
Proof. apply size_list_to_set_le. Qed.

Lemma get_cluster_fuel k n : get_cluster fr t k n ≠ OutOfFuel.
Proof.
  rewrite get_cluster_eq. apply bfs_loop_fuel. cbn [List.length].
  pose proof size_labels_le.
  assert (Hsub : labels fr ∖ {[n]} ⊆ labels fr) by set_solver.
  apply subseteq_size in Hsub. lia.
Qed.

(** What a finished traversal holds: the columns seen before, columns
    reached from the queue, and the neighbours of every column it took
    from the queue. *)
Lemma bfs_loop_Return fuel k q seen S :
  bfs_loop fuel fr t k q seen = Return S →
  seen ⊆ S ∧
  (∀ x, x ∈ S → x ∈ seen ∨ ∃ n, n ∈ q ∧ rtc (edge fr t) n x) ∧
  (∀ x, x ∈ S → (x ∈ seen ∧ x ∉ q) ∨ closed_at fr t S x).
Proof.
  revert q seen. induction fuel as [|fuel IH]; intros q seen.
  - destruct q; simpl; [|done]. intros [= <-]. split_and!; [done|auto|].
    intros x Hx. left. split; [done|]. by intros ?%elem_of_nil.
  - destruct q as [|n q1]; simpl.
    { intros [= <-]. split_and!; [done|auto|].
      intros x Hx. left. split; [done|]. by intros ?%elem_of_nil. }
    destruct (get_neighbors fr t n) as [nb| | |] eqn:Hnb; simpl; try done.
    destruct (visit_neighbors k (elements nb) q1 seen) as [[q2 seen2]| | |] eqn:Hv;
      simpl; try done.
    intros HS. apply IH in HS as (Hsub & Hsound & Hclosed).
    apply visit_neighbors_Return in Hv as (new & -> & -> & Hnew & Hall).
    apply get_neighbors_Return in Hnb as [Hn Hnb].
    split_and!.
    + set_solver.
    + intros x Hx. destruct (Hsound x Hx) as [Hs|(n' & Hn' & Hreach)].
      * apply elem_of_union in Hs as [Hs|Hs]; [by left|].
        right. exists n. split; [by left|]. apply rtc_once, Hnb.
        apply elem_of_list_to_set in Hs. apply Hnew in Hs as [Hs _].
        by apply elem_of_elements in Hs.
      * right. apply elem_of_app in Hn' as [Hn'|Hn'].
        -- exists n'. split; [by right|done].
        -- exists n. split; [by left|]. apply rtc_l with n'; [|done].
           apply Hnb. apply Hnew in Hn' as [Hn' _]. by apply elem_of_elements in Hn'.
    + intros x Hx. destruct (Hclosed x Hx) as [[Hs Hq]|Hc]; [|by right].
      assert (Hx_new : x ∉ new) by (intros ?; apply Hq, elem_of_app; by right).
      assert (Hx_q1 : x ∉ q1) by (intros ?; apply Hq, elem_of_app; by left).
      apply elem_of_union in Hs as [Hs|Hs];
        [|by apply elem_of_list_to_set in Hs].
      destruct (decide (x = n)) as [->|Hne].
      * right. split; [done|]. intros y Hy. apply Hsub, Hall.
        by apply elem_of_elements, Hnb.
      * left. split; [done|]. by intros [->|?]%elem_of_cons.
Qed.

(** A returned cluster holds its seed, only columns reached from the seed,
    and the neighbours of each of its members. *)
Lemma get_cluster_Return k n cl :
  get_cluster fr t k n = Return cl →
  n ∈ cl ∧ (∀ x, x ∈ cl → rtc (edge fr t) n x) ∧ closed_cluster fr t cl.
Proof.
  rewrite get_cluster_eq.
  intros (Hsub & Hsound & Hclosed)%bfs_loop_Return. split_and!.
  - set_solver.
  - intros x Hx. destruct (Hsound x Hx) as [->%elem_of_singleton|(n' & Hn' & Hr)];
      [done|]. by apply list_elem_of_singleton in Hn' as ->.
  - intros x Hx. destruct (Hclosed x Hx) as [[Hs Hq]|Hc]; [|done].
    apply elem_of_singleton in Hs as ->. destruct Hq. by left.
Qed.

Lemma get_cluster_raises k n e :
  get_cluster fr t k n = Raise e → ∃ c, e = KeyError c.
Proof.
  rewrite get_cluster_eq.
  generalize (S (List.length (corr_index fr))) [n] ({[n]} : gset string).
  intros fuel. induction fuel as [|fuel IH]; intros q seen.
  - by destruct q.
  - destruct q as [|m q1]; simpl; [done|].
    destruct (get_neighbors fr t m) as [nb| | |] eqn:Hnb; simpl; try done.
    + destruct (visit_neighbors k (elements nb) q1 seen) as [[q2 seen2]| | |] eqn:Hv;
        simpl; try done; [apply IH|].
      destruct (visit_neighbors_outcome k (elements nb) q1 seen) as [[r Hr]|Hr];
        congruence.
    + intros [= <-]. apply get_neighbors_raises in Hnb. eauto.
Qed.

Lemma get_cluster_unknown k n :
  n ∉ corr_index fr → get_cluster fr t k n = Raise (KeyError n).
Proof.
  intros Hn. rewrite get_cluster_eq. simpl. by rewrite get_neighbors_unknown.
Qed.

(** ** Reachability *)

Lemma closed_cluster_reach cl c x :
  closed_cluster fr t cl → c ∈ cl → rtc (edge fr t) c x → x ∈ cl.
Proof.
  intros Hcl Hc Hr. induction Hr as [|a b z Hab _ IH]; [done|].
  apply IH. by apply (Hcl a Hc).
Qed.

Lemma edge_symmetric n m :
  corr_symmetric fr → n ∈ corr_index fr → edge fr t n m → edge fr t m n.
Proof.
  intros Hsym Hn (Hm & Hne & Hge). split_and!; [done|done|].
  by rewrite (Hsym n m).
Qed.

Lemma reach_symmetric n x :
  corr_symmetric fr → n ∈ corr_index fr →
  rtc (edge fr t) n x → rtc (edge fr t) x n.
Proof.
  intros Hsym Hn Hr. induction Hr as [|a b z Hab _ IH]; [done|].
  apply rtc_r with b; [apply IH, Hab|by apply edge_symmetric].
Qed.

(** ** The list of clusters *)

Lemma pairwise_disjoint_snoc cls (cl : gset string) :
  pairwise_disjoint cls → (∀ a, a ∈ cls → a ## cl) →
  pairwise_disjoint (cls ++ [cl]).
Proof.
  intros Hpd Hcl i j a b Hij Hi Hj.
  apply lookup_app_Some in Hi as [Hi|[Hil Hi]];
    apply lookup_app_Some in Hj as [Hj|[Hjl Hj]].
  - by apply (Hpd i j).
  - apply list_lookup_singleton_Some in Hj as [_ <-].
    apply Hcl, list_elem_of_lookup. eauto.
  - apply list_lookup_singleton_Some in Hi as [_ <-].
    symmetry. apply Hcl, list_elem_of_lookup. eauto.
  - apply list_lookup_singleton_Some in Hi as [Hi _].
    apply list_lookup_singleton_Some in Hj as [Hj _]. lia.
Qed.

Lemma cluster_loop_Return k todo cls R :
  cluster_loop fr t k todo cls = Return R →
  Forall (closed_cluster fr t) cls →
  ∃ more, R = cls ++ more ∧
    Forall (closed_cluster fr t) R ∧
    (∀ c, c ∈ todo → c ∈ ⋃ R) ∧
    (∀ cl, cl ∈ more →
       ∃ c, c ∈ todo ∧ c ∈ cl ∧ ∀ x, x ∈ cl → rtc (edge fr t) c x) ∧
    (corr_symmetric fr → pairwise_disjoint cls → pairwise_disjoint R).
Proof.
  revert cls. induction todo as [|cn rest IH]; intros cls; simpl.
  - intros [= <-] Hcl. exists []. rewrite app_nil_r.
    split_and!; [done|done| | |done]; by intros ? ?%elem_of_nil.
  - destruct (decide (cn ∈ ⋃ cls)) as [Hin|Hnin].
    + intros HR Hcl. destruct (IH _ HR Hcl) as (more & -> & HclR & Hcov & Hseed & Hpd).
      exists more. split_and!; [done|done| | |done].
      * intros c [->|Hc]%elem_of_cons; [|by apply Hcov].
        rewrite union_list_app_L. set_solver.
      * intros cl Hcl'. destruct (Hseed cl Hcl') as (c & Hc & Hrest).
        exists c. split; [by right|done].
    + destruct (get_cluster fr t k cn) as [cl| | |] eqn:Hgc; simpl; try done.
      apply get_cluster_Return in Hgc as (Hcn & Hreach & Hclosed).
      intros HR Hcl.
      destruct (IH _ HR) as (more & -> & HclR & Hcov & Hseed & Hpd).
      { apply Forall_app. split; [done|by apply Forall_singleton]. }
      exists (cl :: more). split_and!.
      * by rewrite <- app_assoc.
      * done.
      * intros c [->|Hc]%elem_of_cons; [|by apply Hcov].
        rewrite !union_list_app_L. set_solver.
      * intros cl' [->|Hcl']%elem_of_cons.
        -- exists cn. split_and!; [by left|done|done].
        -- destruct (Hseed cl' Hcl') as (c & Hc & Hrest).
           exists c. split; [by right|done].
      * intros Hsym Hdis. apply Hpd; [done|].
        apply pairwise_disjoint_snoc; [done|].
        intros a Ha. apply elem_of_disjoint. intros x Hxa Hxcl.
        apply Hnin, elem_of_union_list. exists a. split; [done|].
        rewrite Forall_forall in Hcl.
        apply closed_cluster_reach with x; [by apply Hcl|done|].
        apply reach_symmetric; [done| |by apply Hreach].
        by apply (Hclosed cn Hcn).
Qed.

Lemma cluster_loop_raises k todo cls e :
  cluster_loop fr t k todo cls = Raise e → ∃ c, e = KeyError c.
Proof.
  revert cls. induction todo as [|cn rest IH]; intros cls; simpl; [done|].
  case_decide; [apply IH|].
  destruct (get_cluster fr t k cn) as [cl| | |] eqn:Hgc; simpl;
    [apply IH| |done|done].
  intros [= <-]. by apply get_cluster_raises in Hgc.
Qed.

Lemma cluster_loop_fuel k todo cls :
  cluster_loop fr t k todo cls ≠ OutOfFuel.
Proof.
  revert cls. induction todo as [|cn rest IH]; intros cls; simpl; [done|].
  case_decide; [apply IH|].
  destruct (get_cluster fr t k cn) as [cl| | |] eqn:Hgc; simpl;
    [apply IH|done|done|by apply get_cluster_fuel in Hgc].
Qed.

Lemma closed_clusters_labels cls x :
  Forall (closed_cluster fr t) cls → x ∈ ⋃ cls → x ∈ corr_index fr.
Proof.
  rewrite Forall_forall. intros Hcl (cl & Hin & Hx)%elem_of_union_list.
  by apply (Hcl cl Hin x Hx).
Qed.

End ClusterFacts.



Lemma get_feature_clusters_Return corr df cols t method cls :
  get_feature_clusters corr df cols t method = Return cls →
  Forall (closed_cluster (corr df method) t) cls ∧
  (∀ c, c ∈ considered df cols → c ∈ ⋃ cls) ∧
  (∀ cl, cl ∈ cls →
     ∃ c, c ∈ considered df cols ∧ c ∈ cl ∧
          ∀ x, x ∈ cl → rtc (edge (corr df method) t) c x) ∧
  (corr_symmetric (corr df method) → pairwise_disjoint cls).
Proof.
  unfold get_feature_clusters. intros HR.
  apply cluster_loop_Return in HR as (more & -> & Hcl & Hcov & Hseed & Hpd);
    [|by apply Forall_nil].
  split_and!; [done|done|done|].
  intros Hsym. apply Hpd; [done|]. intros i j a b _ Hi. by rewrite lookup_nil in Hi.
Qed.

(** ** The clusters of a frame *)









(** ** The default call returns *)

Section ClusterReturns.

Variable fr : CorrFrame.
Variable t : pyfloat.
Variable k : nat.

Hypothesis Hroom : size (labels fr) ≤ k.
Hypothesis Hself : self_correlated fr t.

Lemma elem_of_labels x : x ∈ labels fr ↔ x ∈ corr_index fr.
Proof. apply elem_of_list_to_set. Qed.

Lemma get_neighbors_returns n :
  n ∈ corr_index fr → ∃ nb, get_neighbors fr t n = Return nb.
Proof.
  intros Hn. unfold get_neighbors. rewrite decide_True by done.
  set (N := list_to_set _).
  destruct (decide (N = ∅)) as [|Hne]; [eauto|].
  destruct (decide (n ∈ N)) as [|Hnin]; [eauto|]. exfalso.
  apply set_choose_L in Hne as [m Hm].
  unfold N in Hm, Hnin. rewrite elem_of_list_to_set, list_elem_of_filter in Hm, Hnin.
  destruct Hm as [Hge Hm]. apply Hnin. split; [|done]. by apply Hself with m.
Qed.

Lemma NoDup_length_labels (l : list string) :
  NoDup l → (∀ x, x ∈ l → x ∈ labels fr) → List.length l ≤ size (labels fr).
Proof.
  intros Hnd Hin.
  assert (size (list_to_set l : gset string) = List.length l) as <-
    by (by apply size_list_to_set).
  apply subseteq_size. intros x Hx%elem_of_list_to_set. by apply Hin.
Qed.

(** While the queue holds distinct labels, none of them the column in
    hand, a bound of at least the number of labels is never reached. *)
Lemma visit_neighbors_returns n nbrs q seen :
  NoDup (n :: q) → (∀ x, x ∈ n :: q → x ∈ seen) → seen ⊆ labels fr →
  (∀ x, x ∈ nbrs → x ∈ labels fr) →
  ∃ q2 seen2, visit_neighbors k nbrs q seen = Return (q2, seen2) ∧
    NoDup (n :: q2) ∧ (∀ x, x ∈ n :: q2 → x ∈ seen2) ∧ seen2 ⊆ labels fr.
Proof.
  revert q seen. induction nbrs as [|n2 rest IH]; intros q seen Hnd Hq Hseen Hnb.
  - simpl. eauto 10.
  - simpl. destruct (decide (n2 ∈ seen)) as [Hin|Hnin].
    + apply IH; [done|done|done|]. intros x Hx. apply Hnb. by right.
    + assert (Hlen : List.length (n2 :: n :: q) ≤ k).
      { etrans; [|exact Hroom]. apply NoDup_length_labels.
        - apply NoDup_cons. split; [|done]. intros Hx. by apply Hnin, Hq.
        - intros x [->|Hx]%elem_of_cons; [apply Hnb; by left|]. by apply Hseen, Hq. }
      simpl in Hlen. unfold queue_put.
      replace (k <=? List.length q) with false by (symmetry; apply Nat.leb_gt; lia).
      rewrite andb_false_r. simpl. apply IH.
      * apply NoDup_cons in Hnd as [Hn Hnd]. apply NoDup_cons. split.
        -- intros [Hx| ->%list_elem_of_singleton]%elem_of_app; [done|].
           apply Hnin, Hq. by left.
        -- apply NoDup_app. split_and!; [done| |apply NoDup_singleton].
           intros x Hx ->%list_elem_of_singleton. apply Hnin, Hq. by right.
      * intros x [->|[Hx| ->%list_elem_of_singleton]%elem_of_app]%elem_of_cons.
        -- apply elem_of_union_r, Hq. by left.
        -- apply elem_of_union_r, Hq. by right.
        -- by apply elem_of_union_l, elem_of_singleton.
      * intros x [->%elem_of_singleton|Hx]%elem_of_union; [apply Hnb; by left|].
        by apply Hseen.
      * intros x Hx. apply Hnb. by right.
Qed.

Lemma bfs_loop_returns fuel q seen :
  NoDup q → (∀ x, x ∈ q → x ∈ seen) → seen ⊆ labels fr →
  size (labels fr ∖ seen) + List.length q ≤ fuel →
  ∃ cl, bfs_loop fuel fr t k q seen = Return cl.
Proof.
  revert q seen. induction fuel as [|fuel IH]; intros q seen Hnd Hq Hseen Hfuel.
  - destruct q; simpl in *; [eauto|lia].
  - destruct q as [|n q1]; simpl; [eauto|].
    assert (Hn : n ∈ corr_index fr).
    { apply elem_of_labels, Hseen, Hq. by left. }
    destruct (get_neighbors_returns n Hn) as [nb Hnb]. rewrite Hnb. simpl.
    assert (Hnbl : ∀ x, x ∈ elements nb → x ∈ labels fr).
    { intros x Hx%elem_of_elements.
      apply get_neighbors_Return in Hnb as [_ Hnb]. apply Hnb in Hx as [Hx _].
      by apply elem_of_labels. }
    destruct (visit_neighbors_returns n (elements nb) q1 seen Hnd Hq Hseen Hnbl)
      as (q2 & seen2 & Hv & Hnd2 & Hq2 & Hseen2).
    rewrite Hv. simpl. apply IH.
    + by apply NoDup_cons in Hnd2 as [_ ?].
    + intros x Hx. apply Hq2. by right.
    + done.
    + apply visit_neighbors_measure with (I := labels fr) in Hv; [|done].
      cbn [List.length] in Hfuel. lia.
Qed.

Lemma get_cluster_returns n :
  n ∈ corr_index fr → ∃ cl, get_cluster fr t k n = Return cl.
Proof.
  intros Hn. rewrite get_cluster_eq. apply bfs_loop_returns.
  - apply NoDup_singleton.
  - intros x ->%list_elem_of_singleton. by apply elem_of_singleton.
  - intros x ->%elem_of_singleton. by apply elem_of_labels.
  - cbn [List.length]. pose proof (size_labels_le fr).
    assert (Hsub : labels fr ∖ {[n]} ⊆ labels fr) by set_solver.
    apply subseteq_size in Hsub. lia.
Qed.

Lemma cluster_loop_returns todo cls :
  (∀ c, c ∈ todo → c ∈ corr_index fr) →
  ∃ res, cluster_loop fr t k todo cls = Return res.
Proof.
  revert cls. induction todo as [|cn rest IH]; intros cls Htodo; simpl; [eauto|].
  assert (Hrest : ∀ c, c ∈ rest → c ∈ corr_index fr).
  { intros c Hc. apply Htodo. by right. }
  case_decide; [by apply IH|].
  destruct (get_cluster_returns cn) as [cl ->]; [apply Htodo; by left|].
  simpl. by apply IH.
Qed.

End ClusterReturns.

(** The call without [cols] on a table whose columns are all labels of the
    correlation frame returns: the queue never fills up and no key is
    missing. *)
Theorem get_feature_clusters_returns corr df t method :
  (∀ m, m ∈ corr_index (corr df method) → m ∈ columns df) →
  (∀ c, c ∈ columns df → c ∈ corr_index (corr df method)) →
  self_correlated (corr df method) t →
  ∃ cls, get_feature_clusters corr df None t method = Return cls.
Proof.
  intros Hlab Hcols Hself. unfold get_feature_clusters.
  apply cluster_loop_returns; [|done|done].
  etrans; [|apply (size_list_to_set_le (columns df))].
  apply subseteq_size. intros x Hx%elem_of_labels.
  by apply elem_of_list_to_set, Hlab.
Qed.

Lemma get_feature_clusters_fuel corr df cols t method :
  get_feature_clusters corr df cols t method ≠ OutOfFuel.
Proof. apply cluster_loop_fuel. Qed.

(** Rows (1,1,5), (2,2,5), (3,3,5): [A] and [B] cluster at 0.95 and the
    constant [C] is a cluster of its own. *)
Example constant_column_is_alone :
  get_feature_clusters Examples.corr_of_AB_constC Examples.frame_AB_constC None
    (FFin (95 # 100)) "pearson" = Return [{["A"; "B"]}; {["C"]}].
Proof. vm_compute. reflexivity. Qed.

(** With [cols = ["A"]] the queue has room for one column: the second
    neighbour of [A] is never put. *)
Example cols_subset_blocks :
  get_feature_clusters Examples.corr_of_ABC Examples.frame_ABC (Some ["A"])
    (FFin (95 # 100)) "pearson" = Blocks.
Proof. vm_compute. reflexivity. Qed.

(** ** Equality of cells *)

Lemma Qeq_bool_sym p q : Qeq_bool p q = true → Qeq_bool q p = true.
Proof. rewrite !Qeq_bool_iff. by intros ->. Qed.

Lemma Qeq_bool_trans p q r :
  Qeq_bool p q = true → Qeq_bool q r = true → Qeq_bool p r = true.
Proof. rewrite !Qeq_bool_iff. by intros -> ->. Qed.

Lemma Qeq_bool_inject x y : Qeq_bool (inject_Z x) (inject_Z y) = Z.eqb x y.
Proof.
  destruct (Z.eqb_spec x y) as [->|Hne].
  - apply Qeq_bool_iff. reflexivity.
  - destruct (Qeq_bool _ _) eqn:E; [|done].
    apply Qeq_bool_iff in E. apply -> inject_Z_injective in E. congruence.
Qed.

Lemma float_eqb_sym f g : float_eqb f g = true → float_eqb g f = true.
Proof. destruct f, g; simpl; try done. apply Qeq_bool_sym. Qed.

Lemma float_eqb_trans f g h :
  float_eqb f g = true → float_eqb g h = true → float_eqb f h = true.
Proof. destruct f, g, h; simpl; try done. apply Qeq_bool_trans. Qed.

Lemma float_eqb_refl f : isnan f = false → float_eqb f f = true.
Proof. destruct f; simpl; try done. intros _. apply Qeq_bool_iff. reflexivity. Qed.

Lemma float_eqb_inject x y :
  float_eqb (FFin (inject_Z x)) (FFin (inject_Z y)) = Z.eqb x y.
Proof. apply Qeq_bool_inject. Qed.

Lemma py_eqb_refl v : isnull v = false → py_eqb v v = true.
Proof.
  destruct v; simpl; try done.
  - intros _. apply Z.eqb_refl.
  - apply float_eqb_refl.
  - intros _. apply String.eqb_refl.
Qed.

(** Two values equal to the same integer are equal. *)
Lemma py_eqb_int_join v w z :
  py_eqb v (PInt z) = true → py_eqb w (PInt z) = true → py_eqb v w = true.
Proof.
  destruct v as [x|f| |], w as [y|g| |]; cbn [py_eqb]; try done.
  - rewrite !Z.eqb_eq. by intros -> ->.
  - rewrite Z.eqb_eq. intros -> H. by apply float_eqb_sym.
  - rewrite Z.eqb_eq. by intros H ->.
  - intros H1 H2. apply float_eqb_trans with (FFin (inject_Z z)); [done|].
    by apply float_eqb_sym.
Qed.

(** A value equal to one that equals an integer equals that integer. *)
Lemma py_eqb_int_trans v w z :
  py_eqb v w = true → py_eqb w (PInt z) = true → py_eqb v (PInt z) = true.
Proof.
  destruct v as [x|f| |], w as [y|g| |]; cbn [py_eqb]; try done.
  - rewrite !Z.eqb_eq. by intros -> ->.
  - intros H1 H2. rewrite <- float_eqb_inject.
    by apply float_eqb_trans with g.
  - rewrite Z.eqb_eq. by intros H ->.
  - apply float_eqb_trans.
Qed.

Lemma is_zero_or_one_eq v w :
  py_eqb v w = true → is_zero_or_one w = true → is_zero_or_one v = true.
Proof.
  unfold is_zero_or_one. intros Hvw [H|H]%orb_true_iff; apply orb_true_iff;
    [left|right]; by apply py_eqb_int_trans with w.
Qed.

(** ** Distinct values *)

Lemma py_unique_incl l v : In v (py_unique l) → In v l.
Proof.
  induction l as [|a r IH]; simpl; [done|].
  destruct (existsb (py_eqb a) (py_unique r)); simpl; intuition.
Qed.

Lemma py_unique_distinct l : py_distinct (py_unique l) = true.
Proof.
  induction l as [|a r IH]; simpl; [done|].
  destruct (existsb (py_eqb a) (py_unique r)) eqn:E; simpl; [done|].
  by rewrite E, IH.
Qed.

Lemma py_unique_represents l v :
  isnull v = false → In v l → existsb (py_eqb v) (py_unique l) = true.
Proof.
  intros Hv. induction l as [|a r IH]; simpl; [done|].
  intros [->|Hin].
  - destruct (existsb (py_eqb v) (py_unique r)) eqn:E; simpl; [done|].
    by rewrite py_eqb_refl.
  - destruct (existsb (py_eqb a) (py_unique r)); simpl; [by apply IH|].
    rewrite IH by done. apply orb_true_r.
Qed.

(** At most two distinct values are 0 or 1. *)
Lemma py_distinct_zero_one l :
  py_distinct l = true → forallb is_zero_or_one l = true → List.length l ≤ 2.
Proof.
  destruct l as [|a [|b [|c l]]]; simpl; try lia.
  rewrite !andb_true_iff, !negb_true_iff, !orb_false_iff.
  intros [(Hab & Hac & _) [(Hbc & _) _]] (Ha & Hb & Hc & _).
  unfold is_zero_or_one in *.
  apply orb_true_iff in Ha, Hb, Hc.
  assert (J : ∀ v w z, py_eqb v (PInt z) = true → py_eqb w (PInt z) = true →
                       py_eqb v w = false → False).
  { intros v w z H1 H2 H3. by rewrite (py_eqb_int_join v w z) in H3. }
  exfalso. destruct Ha as [Ha|Ha], Hb as [Hb|Hb], Hc as [Hc|Hc]; eauto.
Qed.

Lemma filter_length_all {A} (f : A → bool) (l : list A) :
  List.length (List.filter f l) = List.length l ↔ forallb f l = true.
Proof.
  induction l as [|a l IH]; simpl; [done|].
  pose proof (filter_length_le f l).
  destruct (f a); simpl; [rewrite <- IH; lia|]. split; [lia|done].
Qed.

(** ** The detectors *)

Lemma binary_col_spec col :
  binary_col col = true ↔
  ∀ v, In v col → isnull v = false → is_zero_or_one v = true.
Proof.
  unfold binary_col.
  set (nn := List.filter (fun v => negb (isnull v)) col).
  assert (Hnn : ∀ v, In v nn ↔ In v col ∧ isnull v = false).
  { intros v. unfold nn. rewrite filter_In, negb_true_iff. tauto. }
  fold is_zero_or_one.
  change (fun v => py_eqb v (PInt 0) || py_eqb v (PInt 1)) with is_zero_or_one.
  split.
  - destruct (2 <? _); [done|]. rewrite Nat.eqb_eq, filter_length_all, forallb_forall.
    intros Hall v Hv Hnull.
    pose proof (py_unique_represents nn v Hnull) as Hrep.
    rewrite existsb_exists in Hrep. destruct Hrep as (w & Hw & Hvw); [by apply Hnn|].
    apply is_zero_or_one_eq with w; [done|by apply Hall].
  - intros Hall.
    assert (Hu : forallb is_zero_or_one (py_unique nn) = true).
    { apply forallb_forall. intros v Hv%py_unique_incl%Hnn.
      destruct Hv. by apply Hall. }
    pose proof (py_distinct_zero_one _ (py_unique_distinct nn) Hu) as Hlen.
    apply Nat.ltb_ge in Hlen. rewrite Hlen. by apply Nat.eqb_eq, filter_length_all.
Qed.

(** C8 (as found in the code): [find_binary_cols] reports exactly the
    columns whose non-null values all equal 0 or 1; a column without any
    non-null value is among them. *)
Theorem C8_binary_columns df name :
  name ∈ find_binary_cols df ↔
  ∃ col, (name, col) ∈ df_data df ∧
         ∀ v, v ∈ col → isnull v = false → is_zero_or_one v = true.
Proof.
  unfold find_binary_cols. rewrite list_elem_of_In, in_map_iff. split.
  - intros ([n col] & <- & [Hin Hb]%filter_In). exists col.
    split; [by apply list_elem_of_In|]. intros v Hv.
    apply (proj1 (binary_col_spec col) Hb). by apply list_elem_of_In.
  - intros (col & Hin & Hall). exists (name, col). split; [done|].
    apply filter_In. split; [by apply list_elem_of_In|].
    apply (proj2 (binary_col_spec col)). intros v Hv. by apply Hall, list_elem_of_In.
Qed.

(** C8 as stated fails: a column whose only entry is null has no non-null
    value, and it is reported. *)
Lemma C8_all_null_column_reported :
  find_binary_cols (Examples.one_column [PNone]) = ["X"] ∧
  py_unique (List.filter (fun v => negb (isnull v)) [PNone]) = [].
Proof. split; reflexivity. Qed.

Lemma apply_columns_div n (cols : list (string * list pyval)) :
  n ≠ 0 →
  apply_columns (fun col => div_counts (List.length (List.filter isnull col)) n) cols
  = Return (List.map (fun p => (fst p, FFin (null_fraction n (snd p)))) cols).
Proof.
  intros Hn. induction cols as [|[name col] rest IH]; [done|].
  cbn [apply_columns]. rewrite IH. unfold div_counts.
  apply Nat.eqb_neq in Hn. by rewrite Hn.
Qed.

Lemma fraction_ge_one a b :
  b ≠ 0 →
  float_geb (FFin (inject_Z (Z.of_nat a) / inject_Z (Z.of_nat b))) (FFin 1) = true
  ↔ b ≤ a.
Proof.
  intros Hb. unfold float_geb. simpl. rewrite Qle_bool_iff.
  assert (Hpos : (0 < inject_Z (Z.of_nat b))%Q).
  { change 0%Q with (inject_Z 0). rewrite <- Zlt_Qlt. lia. }
  split.
  - intros Hle. destruct (le_lt_dec b a) as [|Hlt]; [done|].
    exfalso.
    assert (Hab : (inject_Z (Z.of_nat a) < 1 * inject_Z (Z.of_nat b))%Q).
    { rewrite Qmult_1_l, <- Zlt_Qlt. lia. }
    apply (Qlt_not_le _ _ (Qlt_shift_div_r _ _ 1 Hpos Hab) Hle).
  - intros Hle. apply Qle_shift_div_l; [done|].
    rewrite Qmult_1_l, <- Zle_Qle. lia.
Qed.




(** ** The accumulators of the streaming summary *)

Section StreamFacts.

Variable float_of_string : string → option pyfloat.
Variable ceiling : nat.

Local Abbreviation numbers := (update_numbers float_of_string).
Local Abbreviation cell := (update_col float_of_string ceiling).
Local Abbreviation step := (run_step float_of_string ceiling).
Local Abbreviation bounded := (sets_bounded ceiling).

(** The null count and the extremes leave the sets, the labels and the
    row count alone. *)
Lemma update_numbers_frame st c raw :
  let st2 := (numbers st c raw).2 in
  n_rows st2 = n_rows st ∧ label_counts st2 = label_counts st ∧
  col_uniq_vals st2 = col_uniq_vals st ∧
  col_uniq_vals_toomany st2 = col_uniq_vals_toomany st.
Proof.
  unfold update_numbers.
  destruct (String.eqb (strip raw) ""); simpl;
    repeat (case_match; simpl); done.
Qed.

(** What a cell does to the sets: the value is added unless the column is
    frozen, and the column is frozen once its set is larger than the
    ceiling. *)
Lemma update_col_sets st c raw :
  let k := (numbers st c raw).1 in
  let st' := cell st c raw in
  n_rows st' = n_rows st ∧ label_counts st' = label_counts st ∧
  col_uniq_vals st' =
    (if decide (c ∈ col_uniq_vals_toomany st) then col_uniq_vals st
     else <[c := set_add k (get_uniq st c)]> (col_uniq_vals st)) ∧
  col_uniq_vals_toomany st' =
    (if ceiling <? List.length (get_uniq st' c)
     then {[c]} ∪ col_uniq_vals_toomany st else col_uniq_vals_toomany st).
Proof.
  pose proof (update_numbers_frame st c raw) as (Hn & Hl & Hu & Ht).
  unfold update_col. destruct (numbers st c raw) as [k st2].
  simpl in *. unfold get_uniq. rewrite Ht.
  destruct (decide (c ∈ col_uniq_vals_toomany st)); simpl;
    match goal with
    | |- context [if ?b then mark_toomany _ _ else _] => destruct b eqn:E
    end; simpl; rewrite ?E, ?Hu, ?Ht; unfold get_uniq; rewrite ?Hu;
    split_and!; done.
Qed.

Lemma get_uniq_update_col st c raw c' :
  get_uniq (cell st c raw) c' =
    if decide (c' = c ∧ c ∉ col_uniq_vals_toomany st)
    then set_add (numbers st c raw).1 (get_uniq st c)
    else get_uniq st c'.
Proof.
  pose proof (update_col_sets st c raw) as (_ & _ & Hu & _). simpl in Hu.
  unfold get_uniq at 1. rewrite Hu.
  destruct (decide (c ∈ col_uniq_vals_toomany st)).
  - rewrite decide_False by tauto. done.
  - destruct (decide (c' = c)) as [->|Hne].
    + rewrite decide_True by done. by rewrite lookup_insert_eq.
    + rewrite decide_False by tauto. by rewrite lookup_insert_ne.
Qed.

Lemma toomany_update_col st c raw c' :
  c' ∈ col_uniq_vals_toomany (cell st c raw) ↔
  c' ∈ col_uniq_vals_toomany st ∨
  (c' = c ∧ ceiling < List.length (get_uniq (cell st c raw) c)).
Proof.
  pose proof (update_col_sets st c raw) as (_ & _ & _ & Ht). simpl in Ht.
  rewrite Ht. destruct (Nat.ltb_spec ceiling (List.length (get_uniq (cell st c raw) c))).
  - set_solver.
  - split; [auto|]. intros [?|[_ ?]]; [done|lia].
Qed.

Lemma set_add_length k s :
  List.length s ≤ List.length (set_add k s) ≤ List.length s + 1.
Proof.
  unfold set_add. destruct (existsb _ _); [lia|]. rewrite length_app. simpl. lia.
Qed.

Lemma sets_bounded_init : bounded init_state.
Proof.
  intros c. split.
  - intros _. unfold get_uniq. simpl. rewrite lookup_empty. simpl. lia.
  - simpl. set_solver.
Qed.

Lemma sets_bounded_step st st' :
  step st st' → bounded st → bounded st'.
Proof.
  intros [st0|st0 label|st0 c raw] Hb; [exact Hb|exact Hb|].
  intros c'. rewrite toomany_update_col.
  destruct (Hb c') as [Hfree Hfrozen].
  destruct (decide (c' = c)) as [->|Hne].
  - rewrite get_uniq_update_col.
    destruct (decide (c ∈ col_uniq_vals_toomany st0)) as [Hin|Hnin].
    + rewrite decide_False by tauto. split; [tauto|]. auto.
    + rewrite decide_True by done.
      pose proof (set_add_length (numbers st0 c raw).1 (get_uniq st0 c)).
      specialize (Hfree Hnin). split.
      * intros Hn. destruct (le_lt_dec (List.length
          (set_add (numbers st0 c raw).1 (get_uniq st0 c))) ceiling); [done|].
        destruct Hn. auto.
      * intros [?|[_ ?]]; [done|lia].
  - rewrite (get_uniq_update_col st0 c raw c'), decide_False by tauto.
    split; [tauto|]. intros [?|[? _]]; [auto|done].
Qed.

Lemma frozen_step st st' c :
  step st st' → c ∈ col_uniq_vals_toomany st →
  get_uniq st' c = get_uniq st c ∧ c ∈ col_uniq_vals_toomany st'.
Proof.
  intros [st0|st0 label|st0 c0 raw] Hin; [done|done|].
  rewrite get_uniq_update_col, toomany_update_col. split; [|auto].
  destruct (decide (c = c0 ∧ _)) as [[-> ?]|]; done.
Qed.

(** C10: at every point of a pass, each set of distinct values holds at
    most [n_uniq_toomany + 1] elements, and the set of a column marked
    too-many stays as it is, and the column stays marked, whatever comes
    next.  The points of a pass are the states reached by [run_step];
    [rows_loop_steps] below shows that the loops take such steps only. *)
Theorem C10_sets_bounded_and_frozen s1 s2 :
  rtc step init_state s1 → rtc step s1 s2 →
  ∀ c, List.length (get_uniq s1 c) ≤ ceiling + 1 ∧
       (c ∈ col_uniq_vals_toomany s1 →
        get_uniq s2 c = get_uniq s1 c ∧ c ∈ col_uniq_vals_toomany s2).
Proof.
  intros Hreach Hlater c. split.
  - assert (Hb : bounded s1).
    { clear Hlater. revert s1 Hreach. apply rtc_ind_r; [apply sets_bounded_init|].
      intros y z _ Hyz Hy. by apply sets_bounded_step with y. }
    destruct (Hb c) as [Hfree Hfrozen].
    destruct (decide (c ∈ col_uniq_vals_toomany s1)) as [Hin|Hnin].
    + rewrite (Hfrozen Hin). lia.
    + specialize (Hfree Hnin). lia.
  - clear Hreach. induction Hlater as [|a b z Hab _ IH]; [done|].
    intros Hin. destruct (frozen_step a b c Hab Hin) as [Heq Hin'].
    destruct (IH Hin') as [Heq' Hin'']. split; [congruence|done].
Qed.

(** ** The loops are made of steps *)

Lemma cols_loop_steps rd cols st st' :
  cols_loop float_of_string ceiling rd cols st = Return st' → rtc step st st'.
Proof.
  revert st. induction cols as [|c rest IH]; intros st; simpl.
  - by intros [= <-].
  - destruct (rd !! c) as [raw|]; [|done]. intros H.
    apply rtc_l with (cell st c raw); [constructor|by apply IH].
Qed.

Lemma update_label_steps y rd st st' :
  update_label y rd st = Return st' → rtc step st st'.
Proof.
  unfold update_label. case_decide; [by intros [= <-]|].
  destruct (rd !! y) as [label|]; [|done]. intros [= <-].
  apply rtc_once. constructor.
Qed.

Lemma process_row_steps y cols st row st' :
  process_row float_of_string y ceiling cols st row = Return st' → rtc step st st'.
Proof.
  unfold process_row.
  destruct (update_label y _ (count_row st)) as [st1| | |] eqn:Hl; simpl; try done.
  intros Hc. apply rtc_l with (count_row st); [constructor|].
  etrans; [by eapply update_label_steps|by eapply cols_loop_steps].
Qed.

Lemma rows_loop_steps y cols rows st st' :
  rows_loop float_of_string y ceiling cols rows st = Return st' → rtc step st st'.
Proof.
  revert st. induction rows as [|row rest IH]; intros st; simpl.
  - by intros [= <-].
  - destruct (process_row _ _ _ _ st row) as [st1| | |] eqn:Hr; simpl; try done.
    intros H. etrans; [by eapply process_row_steps|by apply IH].
Qed.

(** ** Labels and rows *)


Lemma step_frame st st' :
  step st st' →
  col_uniq_vals_toomany st ⊆ col_uniq_vals_toomany st'.
Proof.
  intros [st0|st0 label|st0 c raw]; [done|done|].
  intros x Hx. apply toomany_update_col. by left.
Qed.

Lemma cols_loop_frame rd cols st st' :
  cols_loop float_of_string ceiling rd cols st = Return st' →
  n_rows st' = n_rows st ∧ label_counts st' = label_counts st ∧
  col_uniq_vals_toomany st ⊆ col_uniq_vals_toomany st' ∧
  ∀ c, c ∈ col_uniq_vals_toomany st' → c ∈ col_uniq_vals_toomany st ∨ c ∈ cols.
Proof.
  revert st. induction cols as [|c rest IH]; intros st; simpl.
  - intros [= <-]. split_and!; [done|done|done|auto].
  - destruct (rd !! c) as [raw|]; [|done]. intros H.
    apply IH in H as (Hn & Hl & Hsub & Hin).
    pose proof (update_col_sets st c raw) as (Hn' & Hl' & _ & _).
    simpl in Hn', Hl'. split_and!; [congruence|congruence| |].
    + etrans; [|exact Hsub]. apply step_frame. constructor.
    + intros c' Hc'. destruct (Hin c' Hc') as [Hc|Hc]; [|right; by right].
      apply toomany_update_col in Hc as [Hc|[-> _]]; [by left|right; by left].
Qed.




Lemma summary_rows_Return st cols rows :
  summary_rows ceiling st cols = Return rows →
  List.map s_attribute rows = cols ∧
  ∀ row, row ∈ rows →
    s_n_uniq row =
      if decide (s_attribute row ∈ col_uniq_vals_toomany st)
      then NUniqStr (toomany_text ceiling)
      else NUniq (List.length (get_uniq st (s_attribute row))).
Proof.
  revert rows. induction cols as [|c rest IH]; intros rows; simpl.
  - intros [= <-]. split; [done|]. by intros ? ?%elem_of_nil.
  - unfold summary_row. destruct (div_counts _ _) as [perc| | |]; simpl; try done.
    destruct (summary_rows ceiling st rest) as [rs| | |]; simpl; try done.
    intros [= <-]. destruct (IH rs eq_refl) as [Hattr Hu]. split.
    + simpl. by rewrite Hattr.
    + intros row [->|Hrow]%elem_of_cons; [done|by apply Hu].
Qed.

End StreamFacts.

(** The sets of column [X] under a ceiling of 2: frozen by the third
    value, untouched by the fourth. *)
Lemma C10_sets_bounded_and_frozen_witness :
  ∃ s1 s2,
    rows_loop Examples.decimal_float "X" 2 ["X"] [["a"]; ["b"]; ["c"]] init_state
      = Return s1 ∧
    rows_loop Examples.decimal_float "X" 2 ["X"] [["d"]] s1 = Return s2 ∧
    List.length (get_uniq s1 "X") ≤ 2 + 1 ∧
    "X" ∈ col_uniq_vals_toomany s1 ∧
    get_uniq s2 "X" = get_uniq s1 "X".
Proof.
  destruct (rows_loop Examples.decimal_float "X" 2 ["X"] [["a"]; ["b"]; ["c"]]
              init_state) as [s1| | |] eqn:H1; try (vm_compute in H1; discriminate H1).
  destruct (rows_loop Examples.decimal_float "X" 2 ["X"] [["d"]] s1)
    as [s2| | |] eqn:H2;
    try (vm_compute in H1; injection H1 as <-; vm_compute in H2; discriminate H2).
  exists s1, s2. split; [reflexivity|]. split; [exact H2|].
  assert (Hin : "X" ∈ col_uniq_vals_toomany s1).
  { vm_compute in H1. injection H1 as <-. vm_compute. reflexivity. }
  destruct (C10_sets_bounded_and_frozen Examples.decimal_float 2 s1 s2
              (rows_loop_steps _ _ _ _ _ _ _ H1) (rows_loop_steps _ _ _ _ _ _ _ H2) "X")
    as [Hlen Hfrozen].
  split; [exact Hlen|]. split; [exact Hin|]. exact (proj1 (Hfrozen Hin)).
Defined.

(** ** The results of the streaming summary *)

(** C4 (as found in the code): without any data row,
    [summarize_big_training_data] raises [ZeroDivisionError] at the null
    share of the first column when the header names a column, and
    [StopIteration] when there is no header; an empty header gives an empty
    summary.  No summary with a NaN is ever returned. *)
Theorem C4_no_data_rows float_of_string y ceiling :
  (∀ c colnames,
     summarize_big_training_data float_of_string [c :: colnames] y ceiling
     = Raise ZeroDivisionError) ∧
  summarize_big_training_data float_of_string [] y ceiling = Raise StopIteration ∧
  summarize_big_training_data float_of_string [[]] y ceiling
  = Return ([], 0, Some ∅).
Proof.
  split_and!; [|done|].
  - intros c colnames. reflexivity.
  - unfold summarize_big_training_data. simpl.
    rewrite decide_False by set_solver. done.
Qed.

(** C4 as stated fails: a header without columns and no data row is an
    input with zero data rows, and the call returns. *)
Lemma C4_empty_header_returns :
  summarize_big_training_data Examples.decimal_float [[]] "X" 1000
  = Return ([], 0, Some ∅).
Proof. apply C4_no_data_rows. Qed.



(** ** One column at a time *)

Section ColumnFacts.

Variable float_of_string : string → option pyfloat.
Variable ceiling : nat.

Local Abbreviation numbers := (update_numbers float_of_string).
Local Abbreviation cell := (update_col float_of_string ceiling).
Local Abbreviation anumbers := (acc_numbers float_of_string).
Local Abbreviation astep := (acc_step float_of_string ceiling).

Local Ltac getters :=
  unfold get_null_count, get_max, get_min, get_numeric, get_uniq; simpl.

Lemma col_view_numbers st c raw :
  (numbers st c raw).1 = (anumbers (col_view st c) raw).1 ∧
  col_view (numbers st c raw).2 c = (anumbers (col_view st c) raw).2.
Proof.
  unfold update_numbers, acc_numbers, col_view.
  destruct (String.eqb (strip raw) "") eqn:Hblank; simpl.
  - split; [done|]. getters. rewrite lookup_insert_eq. reflexivity.
  - getters. destruct (default true (col_numeric st !! c)) eqn:Hnum; simpl;
      [|split; [reflexivity|getters; by rewrite Hnum]].
    destruct (float_of_string (strip raw)) as [v|]; simpl; (split; [done|]);
      getters; rewrite ?lookup_insert_eq, ?Hnum; reflexivity.
Qed.

Lemma col_view_numbers_other st c raw c' :
  c' ≠ c → col_view (numbers st c raw).2 c' = col_view st c'.
Proof.
  intros Hne. unfold update_numbers, col_view.
  destruct (String.eqb (strip raw) "") eqn:Hblank; simpl.
  - getters. rewrite lookup_insert_ne by done. reflexivity.
  - destruct (get_numeric st c) eqn:Hnum; simpl; [|reflexivity].
    destruct (float_of_string (strip raw)) as [v|]; simpl;
      getters; rewrite !lookup_insert_ne by done; reflexivity.
Qed.

(** A cell changes the accumulators of its column as [acc_step] says, and
    no other column. *)
Lemma col_view_cell st c raw :
  col_view (cell st c raw) c = astep (col_view st c) raw.
Proof.
  destruct (col_view_numbers st c raw) as [Hk Ha].
  unfold update_col, acc_step.
  destruct (numbers st c raw) as [k st2], (anumbers (col_view st c) raw) as [k' a2].
  simpl in Hk, Ha. subst k' a2. unfold col_view at 2 3 4 5 6 7 8 9. simpl.
  destruct (decide (c ∈ col_uniq_vals_toomany st2)) as [Hin|Hnin].
  - rewrite (bool_decide_eq_true_2 _ Hin). simpl.
    destruct (ceiling <? List.length (get_uniq st2 c)) eqn:E; unfold col_view; simpl.
    + rewrite bool_decide_eq_true_2 by set_solver. reflexivity.
    + rewrite (bool_decide_eq_true_2 _ Hin). reflexivity.
  - rewrite (bool_decide_eq_false_2 _ Hnin). simpl.
    assert (Hu : get_uniq (add_uniq st2 c k) c = set_add k (get_uniq st2 c)).
    { unfold get_uniq at 1. simpl. by rewrite lookup_insert_eq. }
    rewrite Hu.
    destruct (ceiling <? List.length (set_add k (get_uniq st2 c))) eqn:E;
      unfold col_view; simpl; getters; rewrite lookup_insert_eq.
    + rewrite bool_decide_eq_true_2 by set_solver. reflexivity.
    + rewrite (bool_decide_eq_false_2 _ Hnin). reflexivity.
Qed.

Lemma col_view_cell_other st c raw c' :
  c' ≠ c → col_view (cell st c raw) c' = col_view st c'.
Proof.
  intros Hne. rewrite <- (col_view_numbers_other st c raw c' Hne).
  unfold update_col. destruct (numbers st c raw) as [k st2]. simpl.
  assert (Hu : get_uniq (add_uniq st2 c k) c' = get_uniq st2 c').
  { unfold get_uniq. simpl. by rewrite lookup_insert_ne. }
  assert (Hm : ∀ s : BigState,
    bool_decide (c' ∈ col_uniq_vals_toomany (mark_toomany s c))
    = bool_decide (c' ∈ col_uniq_vals_toomany s)).
  { intros s0. apply bool_decide_ext. simpl. set_solver. }
  destruct (decide (c ∈ col_uniq_vals_toomany st2));
    match goal with
    | |- context [if ?b then mark_toomany _ _ else _] => destruct b
    end; unfold col_view; rewrite ?Hm; simpl; getters;
    rewrite ?lookup_insert_ne by done; reflexivity.
Qed.

Lemma col_view_count_row st c : col_view (count_row st) c = col_view st c.
Proof. reflexivity. Qed.

Lemma col_view_count_label st label c :
  col_view (count_label st label) c = col_view st c.
Proof. reflexivity. Qed.

(** ** One row, then all rows *)

Lemma make_row_dict_lookup cols row j c raw :
  NoDup cols → List.length row = List.length cols →
  cols !! j = Some c → row !! j = Some raw →
  make_row_dict cols row !! c = Some raw.
Proof.
  intros Hnd Hlen Hc Hraw. unfold make_row_dict.
  apply elem_of_list_to_map_1.
  - rewrite fmap_reverse, fst_zip by lia. by rewrite reverse_Permutation.
  - apply elem_of_reverse, list_elem_of_lookup. exists j.
    by apply lookup_zip_Some.
Qed.

Lemma cols_loop_view rd cols st :
  NoDup cols → (∀ c, c ∈ cols → is_Some (rd !! c)) →
  ∃ st', cols_loop float_of_string ceiling rd cols st = Return st' ∧
    ∀ c, col_view st' c =
         if decide (c ∈ cols) then astep (col_view st c) (default "" (rd !! c))
         else col_view st c.
Proof.
  revert st. induction cols as [|c0 rest IH]; intros st Hnd Hrd; cbn [cols_loop].
  - exists st. split; [done|]. intros c.
    by destruct (decide (c ∈ [])) as [?%elem_of_nil|].
  - apply NoDup_cons in Hnd as [Hc0 Hnd].
    destruct (Hrd c0) as [raw Hraw]; [by left|]. rewrite Hraw.
    destruct (IH (cell st c0 raw) Hnd) as (st' & Hst' & Hview).
    { intros c Hc. apply Hrd. by right. }
    exists st'. split; [done|]. intros c. rewrite Hview.
    destruct (decide (c = c0)) as [->|Hne].
    + rewrite decide_False by done. rewrite decide_True by left.
      rewrite Hraw. simpl. apply col_view_cell.
    + destruct (decide (c ∈ rest)) as [Hin|Hnin].
      * rewrite decide_True by (by right). by rewrite col_view_cell_other.
      * rewrite decide_False by (by intros [?|?]%elem_of_cons).
        by rewrite col_view_cell_other.
Qed.

Lemma process_row_view y cols st row :
  NoDup cols → List.length row = List.length cols → y ∈ cols →
  ∃ st', process_row float_of_string y ceiling cols st row = Return st' ∧
    n_rows st' = n_rows st + 1 ∧
    ∀ j c, cols !! j = Some c →
           col_view st' c = astep (col_view st c) (nth j row "").
Proof.
  intros Hnd Hlen Hy.
  assert (Hrd : ∀ j c, cols !! j = Some c →
            make_row_dict cols row !! c = Some (nth j row "")).
  { intros j c Hc. apply make_row_dict_lookup with j; [done|done|done|].
    destruct (nth_lookup_or_length row j "") as [?|Hge]; [done|].
    apply lookup_lt_Some in Hc. lia. }
  assert (Hrd' : ∀ c, c ∈ cols → is_Some (make_row_dict cols row !! c)).
  { intros c [j Hj]%list_elem_of_lookup. rewrite (Hrd j c Hj). eauto. }
  unfold process_row.
  assert (Hlabel : ∃ st1, update_label y (make_row_dict cols row) (count_row st)
             = Return st1 ∧ n_rows st1 = n_rows st + 1 ∧
             ∀ c, col_view st1 c = col_view st c).
  { unfold update_label. case_decide; [by eexists|].
    destruct (Hrd' y Hy) as [label ->]. by eexists. }
  destruct Hlabel as (st1 & -> & Hn1 & Hv1). simpl.
  destruct (cols_loop_view (make_row_dict cols row) cols st1 Hnd Hrd')
    as (st' & Hst' & Hview).
  exists st'. split; [done|]. split.
  - apply cols_loop_frame in Hst' as (-> & _). done.
  - intros j c Hc. rewrite Hview, decide_True, (Hrd j c Hc), Hv1; [done|].
    apply list_elem_of_lookup. eauto.
Qed.

Lemma rows_loop_view y cols rows st :
  rectangular cols rows → y ∈ cols →
  ∃ st', rows_loop float_of_string y ceiling cols rows st = Return st' ∧
    n_rows st' = n_rows st + List.length rows ∧
    ∀ j c, cols !! j = Some c →
           col_view st' c = fold_left astep (column_cells j rows) (col_view st c).
Proof.
  intros [Hnd Hrect] Hy. revert st.
  induction rows as [|row rest IH]; intros st; simpl.
  - exists st. split_and!; [done|lia|done].
  - apply Forall_cons in Hrect as [Hlen Hrect].
    destruct (process_row_view y cols st row Hnd Hlen Hy) as (st1 & -> & Hn1 & Hv1).
    simpl. destruct (IH Hrect st1) as (st' & Hst' & Hn & Hv).
    exists st'. split_and!; [done|lia|].
    intros j c Hc. by rewrite (Hv j c Hc), (Hv1 j c Hc).
Qed.

Lemma col_view_init c : col_view init_state c = init_acc.
Proof.
  unfold col_view, init_acc. getters. rewrite !lookup_empty. simpl.
  by rewrite bool_decide_eq_false_2 by set_solver.
Qed.

Lemma summary_rows_view st cols :
  n_rows st ≠ 0 →
  summary_rows ceiling st cols
  = Return (List.map (fun c => acc_summary ceiling (n_rows st) c (col_view st c)) cols).
Proof.
  intros Hn. induction cols as [|c rest IH]; [done|].
  cbn [summary_rows List.map]. rewrite IH. unfold summary_row, div_counts.
  apply Nat.eqb_neq in Hn. rewrite Hn. simpl. f_equal. f_equal.
  unfold acc_summary, col_view. simpl.
  destruct (decide (c ∈ col_uniq_vals_toomany st)) as [e|e];
    [rewrite (bool_decide_eq_true_2 _ e)|rewrite (bool_decide_eq_false_2 _ e)];
    reflexivity.
Qed.

(** The streaming summary of a rectangular input with at least one row:
    it returns, and the row of each column is the summary of that column's
    accumulators over its own cells. *)
Lemma summarize_big_by_column cols rows y :
  rectangular cols rows → y ∈ cols → rows ≠ [] →
  ∃ lc,
    summarize_big_training_data float_of_string (cols :: rows) y ceiling
    = Return (imap (fun j c => acc_summary ceiling (List.length rows) c
                       (column_acc float_of_string ceiling (column_cells j rows))) cols,
              List.length rows, lc).
Proof.
  intros Hrect Hy Hrows. unfold summarize_big_training_data.
  destruct (rows_loop_view y cols rows init_state Hrect Hy) as (st & -> & Hn & Hv).
  simpl in Hn. simpl.
  rewrite summary_rows_view by (destruct rows; [done|simpl in Hn; lia]).
  simpl.
  assert (Hsum :
    List.map (fun c => acc_summary ceiling (n_rows st) c (col_view st c)) cols
    = imap (fun j c => acc_summary ceiling (List.length rows) c
              (column_acc float_of_string ceiling (column_cells j rows))) cols).
  { apply list_eq. intros j. rewrite list_lookup_imap.
    change (List.map ?f cols) with (f <$> cols). rewrite list_lookup_fmap.
    destruct (cols !! j) as [c|] eqn:Hc; [|done]. simpl.
    by rewrite Hn, (Hv j c Hc), col_view_init. }
  rewrite Hsum, Hn. eexists. reflexivity.
Qed.

End ColumnFacts.

(** ** The set of a column in closed form *)

Section UniqueFacts.

Variable float_of_string : string → option pyfloat.
Variable ceiling : nat.

Local Abbreviation anumbers := (acc_numbers float_of_string).
Local Abbreviation astep := (acc_step float_of_string ceiling).
Local Abbreviation track := (cell_track float_of_string).
Local Abbreviation keys := (tracked_keys float_of_string).

Lemma acc_numbers_track a raw :
  ((anumbers a raw).1, a_numeric (anumbers a raw).2) = track (a_numeric a) raw ∧
  a_uniq (anumbers a raw).2 = a_uniq a ∧
  a_toomany (anumbers a raw).2 = a_toomany a.
Proof.
  unfold acc_numbers, cell_track.
  destruct (negb (String.eqb (strip raw) "") && a_numeric a) eqn:E; simpl; [|done].
  apply andb_true_iff in E as [_ ->].
  by destruct (float_of_string (strip raw)).
Qed.

(** One value more: the set is the first [ceiling + 1] distinct values,
    and the column is marked when there are more than [ceiling]. *)
Lemma set_add_take k D (uniq : list cell_key) (too : bool) :
  uniq = take (S ceiling) D → too = (ceiling <? List.length D) →
  let uniq3 := if too then uniq else set_add k uniq in
  uniq3 = take (S ceiling) (set_add k D) ∧
  too || (ceiling <? List.length uniq3) = (ceiling <? List.length (set_add k D)).
Proof.
  intros -> ->. pose proof (set_add_length k D) as Hlen.
  destruct (Nat.ltb_spec ceiling (List.length D)) as [Hlt|Hge]; simpl.
  - split.
    + unfold set_add. destruct (existsb _ D); [done|].
      by rewrite take_app_le by lia.
    + symmetry. apply Nat.ltb_lt. lia.
  - rewrite (take_ge D) by lia. split; [|done].
    symmetry. apply take_ge. lia.
Qed.

Lemma fold_acc_step_uniq cells a D :
  a_uniq a = take (S ceiling) D → a_toomany a = (ceiling <? List.length D) →
  let a' := fold_left astep cells a in
  let D' := add_keys D (keys (a_numeric a) cells) in
  a_uniq a' = take (S ceiling) D' ∧ a_toomany a' = (ceiling <? List.length D').
Proof.
  revert a D. induction cells as [|raw rest IH]; intros a D Hu Ht; [done|].
  cbn [fold_left tracked_keys].
  destruct (acc_numbers_track a raw) as (Htrack & Hu2 & Ht2).
  destruct (track (a_numeric a) raw) as [k numeric'] eqn:Hk.
  injection Htrack as Hk1 Hnum.
  unfold add_keys. cbn [fold_left]. fold (add_keys (set_add k D) (keys numeric' rest)).
  assert (Hstep : a_numeric (astep a raw) = numeric' ∧
                  a_uniq (astep a raw) = take (S ceiling) (set_add k D) ∧
                  a_toomany (astep a raw)
                  = (ceiling <? List.length (set_add k D))).
  { unfold acc_step. destruct (anumbers a raw) as [k' a2]. simpl in *. subst k'.
    split; [done|]. apply set_add_take; congruence. }
  destruct Hstep as (Hn' & Hu' & Ht'). rewrite <- Hn'. by apply IH.
Qed.

(** The unique count of a column: the number of distinct tracked values,
    or the too-many text when they are more than the ceiling. *)
Lemma column_acc_uniq cells c n :
  let d := distinct_keys (keys true cells) in
  s_n_uniq (acc_summary ceiling n c (column_acc float_of_string ceiling cells))
  = if ceiling <? List.length d then NUniqStr (toomany_text ceiling)
    else NUniq (List.length d).
Proof.
  destruct (fold_acc_step_uniq cells init_acc []) as [Hu Ht]; [done|done|].
  simpl in Hu, Ht. unfold column_acc, distinct_keys, acc_summary. simpl.
  rewrite Ht, Hu.
  destruct (Nat.ltb_spec ceiling (List.length (add_keys [] (keys true cells))));
    [done|]. by rewrite take_ge by lia.
Qed.

End UniqueFacts.

(** C7 (as found in the code): for every column of a rectangular input
    with at least one row, the unique count reported is the number of
    distinct tracked values of the column (each cell stripped, and read as a
    float while the column is still numeric), or the text ["> N"] for the
    ceiling [N] when these are more than [N]. *)
Theorem C7_unique_count float_of_string ceiling cols rows y j c :
  rectangular cols rows → y ∈ cols → rows ≠ [] → cols !! j = Some c →
  ∃ summary lc row,
    summarize_big_training_data float_of_string (cols :: rows) y ceiling
    = Return (summary, List.length rows, lc) ∧
    summary !! j = Some row ∧ s_attribute row = c ∧
    let d := distinct_keys (tracked_keys float_of_string true (column_cells j rows)) in
    s_n_uniq row = if ceiling <? List.length d then NUniqStr (toomany_text ceiling)
                   else NUniq (List.length d).
Proof.
  intros Hrect Hy Hrows Hc.
  destruct (summarize_big_by_column float_of_string ceiling cols rows y Hrect Hy Hrows)
    as [lc Hsum].
  eexists _, lc, _. split; [exact Hsum|]. split.
  - rewrite list_lookup_imap, Hc. reflexivity.
  - split; [reflexivity|]. apply column_acc_uniq.
Qed.

(** The column [a, b, c, d] under a ceiling of 2: the text ["> 2"]. *)
Lemma C7_unique_count_witness :
  rectangular ["X"] [["a"]; ["b"]; ["c"]; ["d"]] ∧
  ∃ summary lc row,
    summarize_big_training_data Examples.decimal_float
      [["X"]; ["a"]; ["b"]; ["c"]; ["d"]] "X" 2 = Return (summary, 4, lc) ∧
    summary !! 0 = Some row ∧ s_n_uniq row = NUniqStr "> 2".
Proof.
  assert (Hrect : rectangular ["X"] [["a"]; ["b"]; ["c"]; ["d"]]).
  { split; [apply NoDup_singleton|]. repeat constructor. }
  split; [exact Hrect|].
  destruct (C7_unique_count Examples.decimal_float 2 ["X"]
              [["a"]; ["b"]; ["c"]; ["d"]] "X" 0 "X" Hrect)
    as (summary & lc & row & Hsum & Hrow & _ & Hu);
    [left|discriminate|reflexivity|].
  exists summary, lc, row. split; [exact Hsum|]. split; [exact Hrow|].
  rewrite Hu. vm_compute. reflexivity.
Defined.

(** C7 as stated fails on raw values: [" a"] and ["a"] are two distinct
    raw values, more than a ceiling of 1, and the count reported is the
    number 1; and the text written for a ceiling of 2 has a space. *)
Lemma C7_counts_stripped_values :
  " a" ≠ "a" ∧
  (∃ lc, summarize_big_training_data Examples.decimal_float
           [["X"]; [" a"]; ["a"]] "X" 1
         = Return ([{| s_attribute := "X"; s_n_null := 0;
                       s_perc_null := FFin (0 # 2); s_max := None; s_min := None;
                       s_n_uniq := NUniq 1 |}], 2, lc)) ∧
  toomany_text 2 = "> 2" ∧ toomany_text 2 ≠ ">2".
Proof.
  split; [discriminate|]. split; [eexists; vm_compute; reflexivity|].
  split; [reflexivity|]. vm_compute. discriminate.
Qed.

(** ** The two summaries of one column *)

Section AgreementFacts.

Variable float_of_string : string → option pyfloat.
Variable ceiling : nat.

Local Abbreviation anumbers := (acc_numbers float_of_string).
Local Abbreviation astep := (acc_step float_of_string ceiling).
Local Abbreviation keys := (tracked_keys float_of_string).

Lemma is_null_or_blank_str s : _is_null_or_blank (PStr s) = String.eqb s "".
Proof. unfold _is_null_or_blank. simpl. by rewrite negb_involutive, orb_false_r. Qed.

Lemma acc_step_numbers a raw :
  a_null (astep a raw) = a_null (anumbers a raw).2 ∧
  a_max (astep a raw) = a_max (anumbers a raw).2 ∧
  a_min (astep a raw) = a_min (anumbers a raw).2 ∧
  a_numeric (astep a raw) = a_numeric (anumbers a raw).2.
Proof. unfold acc_step. by destruct (anumbers a raw). Qed.

(** The null count of the stream is the number of blank cells. *)
Lemma fold_acc_step_null cells a :
  Forall (fun s => strip s = s) cells →
  a_null (fold_left astep cells a)
  = a_null a + List.length (List.filter _is_null_or_blank (List.map PStr cells)).
Proof.
  intros Htrim. revert a. induction Htrim as [|raw rest Hraw _ IH]; intros a.
  - simpl. lia.
  - cbn [fold_left List.map List.filter]. rewrite IH.
    destruct (acc_step_numbers a raw) as (-> & _).
    rewrite is_null_or_blank_str. unfold acc_numbers. rewrite Hraw.
    destruct (String.eqb raw ""); simpl.
    + lia.
    + destruct (a_numeric a); simpl; [destruct (float_of_string raw)|]; simpl; lia.
Qed.

(** The extremes of the stream follow the loop of the table while the
    column is numeric; a value that does not parse ends both. *)
Lemma fold_acc_step_extremes cells a :
  Forall (fun s => strip s = s) cells →
  let a' := fold_left astep cells a in
  if a_numeric a then
    match min_max_loop float_of_string (List.map PStr cells) (a_min a) (a_max a) with
    | Some (mn, mx) => a_numeric a' = true ∧ a_min a' = mn ∧ a_max a' = mx
    | None => a_numeric a' = false
    end
  else a_numeric a' = false.
Proof.
  intros Htrim. revert a. induction Htrim as [|raw rest Hraw _ IH]; intros a.
  - simpl. by destruct (a_numeric a).
  - cbn [fold_left List.map min_max_loop]. specialize (IH (astep a raw)).
    destruct (acc_step_numbers a raw) as (_ & Hmax & Hmin & Hnum).
    rewrite Hnum, Hmax, Hmin in IH. rewrite is_null_or_blank_str.
    unfold acc_numbers in IH. rewrite Hraw in IH.
    destruct (String.eqb raw "") eqn:Hblank; simpl in *.
    + destruct (a_numeric a); simpl in *; done.
    + destruct (a_numeric a); simpl in *; [|done].
      destruct (float_of_string raw) as [v|]; simpl in *; done.
Qed.

(** ** Unique counts of text columns *)

Lemma existsb_key_str s l :
  existsb (key_eqb (KStr s)) (List.map KStr l) = bool_decide (s ∈ l).
Proof.
  induction l as [|x l IH]; simpl; [done|]. rewrite IH.
  destruct (String.eqb_spec s x) as [->|Hne]; simpl.
  - symmetry. apply bool_decide_eq_true_2. by left.
  - apply bool_decide_ext. rewrite elem_of_cons. naive_solver.
Qed.

Lemma existsb_py_str s l :
  existsb (py_eqb (PStr s)) (List.map PStr l) = bool_decide (s ∈ l).
Proof.
  induction l as [|x l IH]; simpl; [done|]. rewrite IH.
  destruct (String.eqb_spec s x) as [->|Hne]; simpl.
  - symmetry. apply bool_decide_eq_true_2. by left.
  - apply bool_decide_ext. rewrite elem_of_cons. naive_solver.
Qed.

Lemma add_keys_str l0 cells :
  NoDup l0 →
  ∃ l', add_keys (List.map KStr l0) (List.map KStr cells) = List.map KStr l' ∧
        NoDup l' ∧ ∀ x, x ∈ l' ↔ x ∈ l0 ∨ x ∈ cells.
Proof.
  revert l0. induction cells as [|s rest IH]; intros l0 Hnd.
  - exists l0. split_and!; [done|done|]. intros x. rewrite elem_of_nil. tauto.
  - unfold add_keys. cbn [List.map fold_left]. unfold set_add.
    rewrite existsb_key_str. case_bool_decide as Hin.
    + destruct (IH l0 Hnd) as (l' & Heq & Hnd' & Hl'). exists l'.
      split_and!; [done|done|]. intros x. rewrite Hl', elem_of_cons. naive_solver.
    + destruct (IH (l0 ++ [s])) as (l' & Heq & Hnd' & Hl').
      { apply NoDup_app. split_and!; [done| |apply NoDup_singleton].
        intros x Hx ->%list_elem_of_singleton. done. }
      exists l'. split_and!; [|done|].
      * rewrite <- Heq. unfold add_keys. by rewrite map_app.
      * intros x. rewrite Hl', elem_of_app, list_elem_of_singleton, elem_of_cons.
        tauto.
Qed.

Lemma py_unique_str cells :
  ∃ l', py_unique (List.map PStr cells) = List.map PStr l' ∧
        NoDup l' ∧ ∀ x, x ∈ l' ↔ x ∈ cells.
Proof.
  induction cells as [|s rest (l' & Heq & Hnd & Hl')].
  - exists []. split_and!; [done|apply NoDup_nil_2|done].
  - cbn [List.map py_unique]. rewrite Heq, existsb_py_str. case_bool_decide as Hin.
    + exists l'. split_and!; [done|done|]. intros x. rewrite Hl', elem_of_cons.
      apply Hl' in Hin. naive_solver.
    + exists (s :: l'). split_and!; [done|by apply NoDup_cons|].
      intros x. rewrite !elem_of_cons, Hl'. tauto.
Qed.

Lemma uniq_loop_str l b n :
  uniq_loop (List.map PStr l) b n
  = (b || bool_decide ("" ∈ l),
     n + List.length (List.filter (fun s => negb (String.eqb s "")) l)).
Proof.
  revert b n. induction l as [|s l IH]; intros b n.
  - simpl. rewrite orb_false_r. f_equal. lia.
  - cbn [List.map uniq_loop List.filter]. rewrite is_null_or_blank_str.
    destruct (String.eqb_spec s "") as [->|Hne]; simpl; rewrite IH.
    + by rewrite orb_true_r.
    + f_equal; [|lia]. f_equal.
      rewrite <- (bool_decide_ext ("" ∈ l) ("" ∈ s :: l)); [done|].
      rewrite elem_of_cons. naive_solver.
Qed.

Lemma filter_nonblank_length l :
  NoDup l →
  List.length (List.filter (fun s => negb (String.eqb s "")) l)
  + (if bool_decide ("" ∈ l) then 1 else 0) = List.length l.
Proof.
  induction 1 as [|s l Hs Hnd IH]; [done|]. cbn [List.filter].
  destruct (String.eqb s "") eqn:E; cbn [negb List.length].
  - apply String.eqb_eq in E as ->.
    rewrite (bool_decide_eq_true_2 ("" ∈ "" :: l)) by left.
    rewrite (bool_decide_eq_false_2 _ Hs) in IH. lia.
  - apply String.eqb_neq in E.
    assert (bool_decide ("" ∈ s :: l) = bool_decide ("" ∈ l)) as ->; [|lia].
    apply bool_decide_ext. rewrite elem_of_cons. naive_solver.
Qed.

Lemma get_uniq_str cells :
  ∃ l', _get_uniq (List.map PStr cells) = List.length l' ∧
        NoDup l' ∧ ∀ x, x ∈ l' ↔ x ∈ cells.
Proof.
  destruct (py_unique_str cells) as (l' & Heq & Hnd & Hl').
  exists l'. split_and!; [|done|done].
  unfold _get_uniq. rewrite Heq, uniq_loop_str. simpl.
  pose proof (filter_nonblank_length l' Hnd).
  destruct (bool_decide ("" ∈ l')); lia.
Qed.

Lemma tracked_keys_text cells b :
  Forall (fun s => strip s = s) cells →
  (∀ s, s ∈ cells → float_of_string s = None) →
  keys b cells = List.map KStr cells.
Proof.
  intros Htrim. revert b. induction Htrim as [|raw rest Hraw _ IH]; intros b Hnone.
  - done.
  - cbn [tracked_keys List.map]. unfold cell_track. rewrite Hraw.
    rewrite (Hnone raw) by left.
    assert (Hrest : ∀ b', keys b' rest = List.map KStr rest).
    { intros b'. apply IH. intros s Hs. apply Hnone. by right. }
    destruct (negb (String.eqb raw "") && b); by rewrite Hrest.
Qed.

(** The unique count of a column of text: the same number in both
    summaries, or the too-many text. *)
Lemma text_column_uniq cells :
  Forall (fun s => strip s = s) cells →
  (∀ s, s ∈ cells → float_of_string s = None) →
  List.length (distinct_keys (keys true cells)) = _get_uniq (List.map PStr cells).
Proof.
  intros Htrim Hnone. rewrite tracked_keys_text by done.
  destruct (add_keys_str [] cells) as (l1 & Heq1 & Hnd1 & Hl1); [apply NoDup_nil_2|].
  destruct (get_uniq_str cells) as (l2 & -> & Hnd2 & Hl2).
  unfold distinct_keys. change [] with (List.map KStr []). rewrite Heq1.
  rewrite length_map. apply Permutation_length, NoDup_Permutation; [done|done|].
  intros x. rewrite Hl1, Hl2, elem_of_nil. tauto.
Qed.

(** The two summary rows of one column whose cells carry no blank
    margins. *)
Lemma column_agrees cells c n :
  Forall (fun s => strip s = s) cells → n ≠ 0 →
  let s := acc_summary ceiling n c (column_acc float_of_string ceiling cells) in
  let t := summarize_column float_of_string n c (List.map PStr cells) in
  s_attribute s = t_attribute t ∧ s_n_null s = t_n_null t ∧
  s_perc_null s = t_perc_null t ∧
  same_extreme (t_min t) (s_min s) ∧ same_extreme (t_max t) (s_max s) ∧
  ((∀ x, x ∈ cells → float_of_string x = None) →
   same_uniq ceiling (t_n_uniq t) (s_n_uniq s)).
Proof.
  intros Htrim Hn.
  pose proof (fold_acc_step_null cells init_acc Htrim) as Hnull.
  pose proof (fold_acc_step_extremes cells init_acc Htrim) as Hext.
  pose proof (column_acc_uniq float_of_string ceiling cells c n) as Huniq.
  cbv zeta in Hext, Huniq. simpl in Hnull, Hext.
  fold (column_acc float_of_string ceiling cells) in Hnull, Hext.
  unfold summarize_column, _get_min_max.
  set (a := column_acc float_of_string ceiling cells) in *.
  assert (Hperc : s_perc_null (acc_summary ceiling n c a)
    = np_div (List.length (List.filter _is_null_or_blank (List.map PStr cells))) n).
  { unfold np_div. apply Nat.eqb_neq in Hn. rewrite Hn. simpl. by rewrite Hnull. }
  assert (Hu : (∀ x, x ∈ cells → float_of_string x = None) →
    same_uniq ceiling (_get_uniq (List.map PStr cells))
      (s_n_uniq (acc_summary ceiling n c a))).
  { intros Hnone. unfold same_uniq. rewrite Huniq.
    by rewrite (text_column_uniq cells Htrim Hnone). }
  destruct (min_max_loop float_of_string (List.map PStr cells) FPosInf FNegInf)
    as [[mn mx]|]; simpl.
  - destruct Hext as (Hnum & Hmin & Hmax). rewrite Hnum, Hmin, Hmax.
    split_and!; [done|done|done| | |done].
    + by destruct (isinf mn).
    + by destruct (isinf mx).
  - rewrite Hext. split_and!; done.
Qed.

Lemma column_cells_trimmed rows j :
  (∀ row, row ∈ rows → Forall (fun s => strip s = s) row) →
  Forall (fun s => strip s = s) (column_cells j rows).
Proof.
  intros Htrim. unfold column_cells. apply Forall_forall.
  intros x (row & <- & Hrow)%list_elem_of_In%in_map_iff.
  apply list_elem_of_In, Htrim in Hrow. rewrite Forall_forall in Hrow.
  destruct (nth_in_or_default j row "") as [Hin| ->]; [|done].
  by apply Hrow, list_elem_of_In.
Qed.

(** The table summary of the table of a stream, column by column. *)
Lemma summarize_training_by_column cols rows y :
  y ∈ cols →
  ∃ lc,
    summarize_training_data float_of_string (frame_of_rows cols rows) y
    = Return (imap (fun j c => summarize_column float_of_string (List.length rows) c
                       (List.map PStr (column_cells j rows))) cols,
              List.length rows, lc).
Proof.
  intros [j Hj]%list_elem_of_lookup. unfold summarize_training_data, df_get.
  destruct (List.find _ (df_data (frame_of_rows cols rows))) as [p|] eqn:Hfind.
  - simpl. eexists. f_equal. f_equal. f_equal.
    apply list_eq. intros i.
    change (List.map ?f ?l) with (f <$> l) at 1.
    rewrite list_lookup_fmap, !list_lookup_imap. by destruct (cols !! i).
  - exfalso.
    pose proof (find_none _ _ Hfind (y, List.map PStr (column_cells j rows))) as Hn.
    simpl in Hn. rewrite String.eqb_refl in Hn. apply diff_true_false, Hn.
    apply list_elem_of_In, list_elem_of_lookup. exists j.
    by rewrite list_lookup_imap, Hj.
Qed.

End AgreementFacts.

(** ** The two summaries of one table *)

(** C2 (as found in the code): on a rectangular stream with at least one
    row whose cells carry no blank margins, and on the table holding the
    same cells, both summaries return the same row count and, column by
    column, the same name, null count and null share, and matching minimum
    and maximum; for a column in which no cell reads as a number they also
    report the same unique count, up to the too-many text. *)
Theorem C2_summaries_agree float_of_string ceiling cols rows y :
  rectangular cols rows → y ∈ cols → rows ≠ [] →
  (∀ row, row ∈ rows → Forall (fun s => strip s = s) row) →
  ∃ ssum slc tsum tlc,
    summarize_big_training_data float_of_string (cols :: rows) y ceiling
    = Return (ssum, List.length rows, slc) ∧
    summarize_training_data float_of_string (frame_of_rows cols rows) y
    = Return (tsum, List.length rows, tlc) ∧
    List.length ssum = List.length cols ∧ List.length tsum = List.length cols ∧
    ∀ j s t, ssum !! j = Some s → tsum !! j = Some t →
      s_attribute s = t_attribute t ∧ s_n_null s = t_n_null t ∧
      s_perc_null s = t_perc_null t ∧
      same_extreme (t_min t) (s_min s) ∧ same_extreme (t_max t) (s_max s) ∧
      ((∀ x, x ∈ column_cells j rows → float_of_string x = None) →
       same_uniq ceiling (t_n_uniq t) (s_n_uniq s)).
Proof.
  intros Hrect Hy Hrows Htrim.
  destruct (summarize_big_by_column float_of_string ceiling cols rows y Hrect Hy Hrows)
    as [slc Hs].
  destruct (summarize_training_by_column float_of_string cols rows y Hy) as [tlc Ht].
  eexists _, slc, _, tlc. split; [exact Hs|]. split; [exact Ht|].
  split; [by rewrite length_imap|]. split; [by rewrite length_imap|].
  intros j s t. rewrite !list_lookup_imap.
  destruct (cols !! j) as [c|]; [|done]. simpl. intros [= <-] [= <-].
  apply column_agrees.
  - by apply column_cells_trimmed.
  - by destruct rows.
Qed.

(** The column [1, 2, blank, 4]: one null, a quarter of the rows,
    extremes 1 and 4 in both summaries. *)
Lemma C2_summaries_agree_witness :
  rectangular ["X"] [["1"]; ["2"]; [""]; ["4"]] ∧
  (∀ row, row ∈ [["1"]; ["2"]; [""]; ["4"]] → Forall (fun s => strip s = s) row) ∧
  ∃ ssum slc tsum tlc s t,
    summarize_big_training_data Examples.decimal_float
      [["X"]; ["1"]; ["2"]; [""]; ["4"]] "X" 1000 = Return (ssum, 4, slc) ∧
    summarize_training_data Examples.decimal_float
      (frame_of_rows ["X"] [["1"]; ["2"]; [""]; ["4"]]) "X" = Return (tsum, 4, tlc) ∧
    ssum !! 0 = Some s ∧ tsum !! 0 = Some t ∧
    s_n_null s = t_n_null t ∧ s_perc_null s = t_perc_null t ∧
    same_extreme (t_min t) (s_min s) ∧ same_extreme (t_max t) (s_max s).
Proof.
  assert (Hrect : rectangular ["X"] [["1"]; ["2"]; [""]; ["4"]]).
  { split; [apply NoDup_singleton|]. repeat constructor. }
  assert (Htrim : ∀ row, row ∈ [["1"]; ["2"]; [""]; ["4"]] →
                         Forall (fun s => strip s = s) row).
  { intros row Hrow.
    repeat (apply elem_of_cons in Hrow as [->|Hrow]; [by repeat constructor|]).
    by apply elem_of_nil in Hrow. }
  split; [exact Hrect|]. split; [exact Htrim|].
  destruct (C2_summaries_agree Examples.decimal_float 1000 ["X"]
              [["1"]; ["2"]; [""]; ["4"]] "X" Hrect)
    as (ssum & slc & tsum & tlc & Hs & Ht & Hls & Hlt & Hagree);
    [left|discriminate|exact Htrim|].
  destruct ssum as [|s ssum]; [discriminate Hls|].
  destruct tsum as [|t tsum]; [discriminate Hlt|].
  exists (s :: ssum), slc, (t :: tsum), tlc, s, t.
  split; [exact Hs|]. split; [exact Ht|]. split; [reflexivity|]. split; [reflexivity|].
  destruct (Hagree 0 s t eq_refl eq_refl) as (_ & Hnull & Hperc & Hmin & Hmax & _).
  split; [exact Hnull|]. split; [exact Hperc|]. split; [exact Hmin|exact Hmax].
Defined.

(** C2 as stated fails: in the column [1, a, 1] the stream keeps the
    float of the first cell, the text [a], and the text of the third cell,
    read after the column stopped being numeric: three values, where the
    table counts two. *)
Lemma C2_mixed_column_counts_differ :
  ∃ s slc t tlc,
    summarize_big_training_data Examples.decimal_float
      [["X"]; ["1"]; ["a"]; ["1"]] "X" 1000 = Return ([s], 3, slc) ∧
    summarize_training_data Examples.decimal_float
      (frame_of_rows ["X"] [["1"]; ["a"]; ["1"]]) "X" = Return ([t], 3, tlc) ∧
    s_n_uniq s = NUniq 3 ∧ t_n_uniq t = 2 ∧
    ¬ same_uniq 1000 (t_n_uniq t) (s_n_uniq s).
Proof.
  eexists _, _, _, _. split; [vm_compute; reflexivity|].
  split; [vm_compute; reflexivity|]. split; [reflexivity|]. split; [reflexivity|].
  unfold same_uniq. simpl. discriminate.
Qed.

(** A cell of blanks is a null of the stream and no null of the table. *)
Example blank_cell_null_counts :
  ∃ s slc t tlc,
    summarize_big_training_data Examples.decimal_float [["X"]; [" "]] "X" 1000
    = Return ([s], 1, slc) ∧
    summarize_training_data Examples.decimal_float
      (frame_of_rows ["X"] [[" "]]) "X" = Return ([t], 1, tlc) ∧
    s_n_null s = 1 ∧ t_n_null t = 0.
Proof.
  eexists _, _, _, _. split; [vm_compute; reflexivity|].
  split; [vm_compute; reflexivity|]. split; reflexivity.
Qed.

(** The column [1, 2, blank, 4] of the streaming summary: one null, a
    quarter of the rows, extremes 1 and 4, four distinct values. *)
Example stream_scenario_blank_cell :
  ∃ slc,
    summarize_big_training_data Examples.decimal_float
      [["X"]; ["1"]; ["2"]; [""]; ["4"]] "X" 1000
    = Return ([{| s_attribute := "X"; s_n_null := 1; s_perc_null := FFin (1 # 4);
                  s_max := Some (FFin 4); s_min := Some (FFin 1);
                  s_n_uniq := NUniq 4 |}], 4, slc).
Proof. eexists. vm_compute. reflexivity. Qed.

(** * More on the clusters *)

Section ClusterNeverWaits.

Variable fr : CorrFrame.
Variable t : pyfloat.
Variable k : nat.

Hypothesis Hroom : size (labels fr) ≤ k.

Lemma bfs_loop_no_wait fuel q seen :
  NoDup q → (∀ x, x ∈ q → x ∈ seen) → seen ⊆ labels fr →
  bfs_loop fuel fr t k q seen ≠ Blocks.
Proof.
  revert q seen. induction fuel as [|fuel IH]; intros q seen Hnd Hq Hseen.
  - by destruct q.
  - destruct q as [|n q1]; simpl; [done|].
    destruct (get_neighbors fr t n) as [nb|e| |] eqn:Hnb; simpl; try done.
    + assert (Hnbl : ∀ x, x ∈ elements nb → x ∈ labels fr).
      { intros x Hx%elem_of_elements.
        apply get_neighbors_Return in Hnb as [_ Hnb]. apply Hnb in Hx as [Hx _].
        by apply elem_of_labels. }
      destruct (visit_neighbors_returns fr k Hroom n (elements nb) q1 seen
                  Hnd Hq Hseen Hnbl) as (q2 & seen2 & Hv & Hnd2 & Hq2 & Hseen2).
      rewrite Hv. simpl. apply IH.
      * by apply NoDup_cons in Hnd2 as [_ ?].
      * intros x Hx. apply Hq2. by right.
      * done.
    + by destruct (get_neighbors_finishes fr t n) as [? _].
Qed.

Lemma get_cluster_no_wait n : get_cluster fr t k n ≠ Blocks.
Proof.
  destruct (decide (n ∈ corr_index fr)) as [Hn|Hn].
  - rewrite get_cluster_eq. apply bfs_loop_no_wait.
    + apply NoDup_singleton.
    + intros x ->%list_elem_of_singleton. by apply elem_of_singleton.
    + intros x ->%elem_of_singleton. by apply elem_of_labels.
  - by rewrite get_cluster_unknown.
Qed.

Lemma cluster_loop_no_wait todo cls : cluster_loop fr t k todo cls ≠ Blocks.
Proof.
  revert cls. induction todo as [|cn rest IH]; intros cls; simpl; [done|].
  case_decide; [apply IH|].
  pose proof (get_cluster_no_wait cn).
  destruct (get_cluster fr t k cn) as [cl|e| |]; simpl; [apply IH|done|done|done].
Qed.

End ClusterNeverWaits.

Lemma cluster_loop_length fr t k todo cls R :
  cluster_loop fr t k todo cls = Return R →
  List.length R ≤ List.length cls + List.length todo.
Proof.
  revert cls. induction todo as [|cn rest IH]; intros cls; simpl.
  - intros [= <-]. lia.
  - case_decide.
    + intros HR%IH. lia.
    + destruct (get_cluster fr t k cn); simpl; try done.
      intros HR%IH. rewrite length_app in HR. simpl in HR. lia.
Qed.

Lemma size_labels_columns (corr : DataFrame → string → CorrFrame) df method :
  (∀ m, m ∈ corr_index (corr df method) → m ∈ columns df) →
  size (labels (corr df method)) ≤ List.length (columns df).
Proof.
  intros Hlab. etrans; [|apply (size_list_to_set_le (columns df))].
  apply subseteq_size. intros x Hx%elem_of_labels.
  by apply elem_of_list_to_set, Hlab.
Qed.

(** X1: called without [cols] on a table whose columns are exactly the
    labels of a symmetric correlation frame in which every column with a
    neighbour passes the threshold with itself, [get_feature_clusters]
    returns, and the cluster of each column is the set of the columns
    reached from it through pairs at or above the threshold. *)
Theorem default_call_components corr df t method :
  (∀ m, m ∈ corr_index (corr df method) → m ∈ columns df) →
  (∀ c, c ∈ columns df → c ∈ corr_index (corr df method)) →
  corr_symmetric (corr df method) →
  self_correlated (corr df method) t →
  ∃ cls, get_feature_clusters corr df None t method = Return cls ∧
    ∀ c, c ∈ columns df →
      ∃ cl, cl ∈ cls ∧ ∀ x, x ∈ cl ↔ rtc (edge (corr df method) t) c x.
Proof.
  intros Hlab Hcols Hsym Hself.
  destruct (get_feature_clusters_returns corr df t method Hlab Hcols Hself)
    as [cls Hcls].
  exists cls. split; [done|]. intros c Hc.
  apply get_feature_clusters_Return in Hcls as (Hclosed & Hcover & Hseed & _).
  apply Hcover, elem_of_union_list in Hc as (cl & Hcl & Hccl).
  exists cl. split; [done|]. intros x.
  rewrite Forall_forall in Hclosed. pose proof (Hclosed cl Hcl) as Hcc.
  split.
  - intros Hx. destruct (Hseed cl Hcl) as (s & _ & Hs & Hreach).
    etrans; [|by apply Hreach].
    apply reach_symmetric; [done| |by apply Hreach].
    by destruct (Hcc s Hs).
  - intros Hreach. by eapply closed_cluster_reach.
Qed.

Lemma default_call_components_witness :
  ∃ cls, get_feature_clusters Examples.corr_of_AB_constC Examples.frame_AB_constC
           None (FFin (95 # 100)) "pearson" = Return cls ∧
    ∀ c, c ∈ columns Examples.frame_AB_constC →
      ∃ cl, cl ∈ cls ∧
        ∀ x, x ∈ cl ↔
          rtc (edge (Examples.corr_of_AB_constC Examples.frame_AB_constC "pearson")
                 (FFin (95 # 100))) c x.
Proof.
  apply (default_call_components Examples.corr_of_AB_constC Examples.frame_AB_constC
           (FFin (95 # 100)) "pearson").
  - intros m Hm. exact Hm.
  - intros m Hm. exact Hm.
  - intros a b _ _. unfold Examples.corr_of_AB_constC, Examples.corr_AB_constC.
    cbn [corr_at]. by rewrite orb_comm.
  - intros n m _ _. unfold Examples.corr_of_AB_constC, Examples.corr_AB_constC.
    cbn [corr_at]. rewrite orb_diag.
    destruct (String.eqb m "C"), (String.eqb n "C"); simpl; done.
Defined.

(** X2: called without [cols] on a table with a column that is no label of
    the correlation frame (a column [corr] leaves out),
    [get_feature_clusters] raises [KeyError]: it neither returns nor waits
    in the queue. *)
Theorem call_without_label_raises corr df t method c :
  (∀ m, m ∈ corr_index (corr df method) → m ∈ columns df) →
  c ∈ columns df → c ∉ corr_index (corr df method) →
  ∃ k, get_feature_clusters corr df None t method = Raise (KeyError k).
Proof.
  intros Hlab Hc Hno.
  destruct (get_feature_clusters corr df None t method) as [cls|e| |] eqn:Hrun.
  - apply get_feature_clusters_Return in Hrun as (Hclosed & Hcover & _).
    destruct Hno. eapply closed_clusters_labels; [done|]. by apply Hcover.
  - apply cluster_loop_raises in Hrun as [k ->]. eauto.
  - apply cluster_loop_no_wait in Hrun; [done|]. by apply size_labels_columns.
  - by apply get_feature_clusters_fuel in Hrun.
Qed.

Lemma call_without_label_raises_witness :
  "T" ∈ columns Samples.frame_AB_text ∧
  ("T" ∉ corr_index (Examples.corr_of_AB Samples.frame_AB_text "pearson")) ∧
  ∃ k, get_feature_clusters Examples.corr_of_AB Samples.frame_AB_text None
         (FFin (95 # 100)) "pearson" = Raise (KeyError k).
Proof.
  assert (HT : "T" ∈ columns Samples.frame_AB_text) by (do 2 right; left).
  assert (Hno : "T" ∉ corr_index (Examples.corr_of_AB Samples.frame_AB_text "pearson")).
  { simpl. intros H. repeat (apply elem_of_cons in H as [H|H]; [discriminate H|]).
    by apply elem_of_nil in H. }
  split; [exact HT|]. split; [exact Hno|].
  apply (call_without_label_raises Examples.corr_of_AB Samples.frame_AB_text
           (FFin (95 # 100)) "pearson" "T"); [|exact HT|exact Hno].
  intros m Hm. simpl in Hm.
  apply elem_of_cons in Hm as [-> | Hm]; [left|].
  apply elem_of_cons in Hm as [-> | Hm]; [right; left|].
  by apply elem_of_nil in Hm.
Defined.

(** X3: a returning call yields at most as many clusters as columns were
    considered, and each cluster holds a considered column. *)
Theorem clusters_at_most_columns corr df cols t method cls :
  get_feature_clusters corr df cols t method = Return cls →
  List.length cls ≤ List.length (considered df cols) ∧
  ∀ cl, cl ∈ cls → ∃ c, c ∈ considered df cols ∧ c ∈ cl.
Proof.
  intros Hrun. split.
  - apply cluster_loop_length in Hrun. simpl in Hrun. exact Hrun.
  - intros cl Hcl.
    apply get_feature_clusters_Return in Hrun as (_ & _ & Hseed & _).
    destruct (Hseed cl Hcl) as (c & ? & ? & _). eauto.
Qed.

Lemma clusters_at_most_columns_witness :
  get_feature_clusters Examples.corr_of_AB Examples.frame_AB None (FFin 2) "pearson"
  = Return [{["A"]}; {["B"]}] ∧
  List.length [({["A"]} : gset string); {["B"]}]
  ≤ List.length (considered Examples.frame_AB None).
Proof.
  assert (HR : get_feature_clusters Examples.corr_of_AB Examples.frame_AB None
                 (FFin 2) "pearson" = Return [{["A"]}; {["B"]}])
    by (vm_compute; reflexivity).
  split; [exact HR|].
  exact (proj1 (clusters_at_most_columns Examples.corr_of_AB Examples.frame_AB None
                  (FFin 2) "pearson" _ HR)).
Defined.

(** * More on the column detectors *)

Lemma py_eqb_sym a b : py_eqb a b = true → py_eqb b a = true.
Proof.
  destruct a as [x|f|s|], b as [y|g|s'|]; cbn [py_eqb]; try done.
  - rewrite !Z.eqb_eq. by intros ->.
  - apply float_eqb_sym.
  - apply float_eqb_sym.
  - apply float_eqb_sym.
  - rewrite !String.eqb_eq. by intros ->.
Qed.

Lemma py_eqb_trans a b c :
  py_eqb a b = true → py_eqb b c = true → py_eqb a c = true.
Proof.
  destruct c as [z|h|s''|].
  - apply py_eqb_int_trans.
  - intros Hab Hbc. apply py_eqb_sym.
    destruct a as [x|f|s|].
    + apply py_eqb_int_trans with b; by apply py_eqb_sym.
    + destruct b as [y|g|s'|]; cbn [py_eqb] in *; try done.
      * apply float_eqb_sym.
        apply float_eqb_trans with (FFin (inject_Z y)); [done|done].
      * apply float_eqb_sym. by apply float_eqb_trans with g.
    + destruct b; done.
    + destruct b; done.
  - destruct a as [x|f|s|], b as [y|g|s'|]; cbn [py_eqb]; try done.
    rewrite !String.eqb_eq. by intros -> ->.
  - destruct a as [x|f|s|], b as [y|g|s'|]; cbn [py_eqb]; done.
Qed.

Lemma py_distinct_all_equal l :
  py_distinct l = true →
  (∀ v w, In v l → In w l → py_eqb v w = true) → List.length l ≤ 1.
Proof.
  destruct l as [|a [|b l]]; simpl; try lia.
  rewrite !andb_true_iff, !negb_true_iff, !orb_false_iff.
  intros [[Hab _] _] Hall. rewrite Hall in Hab by tauto. done.
Qed.

(** The non-null values of a column have one distinct value exactly when
    there is one and they are all equal. *)
Lemma uninfo_col_spec col :
  List.length (py_unique (List.filter (fun v => negb (isnull v)) col)) = 1 ↔
  (∃ v, In v col ∧ isnull v = false) ∧
  ∀ v w, In v col → In w col → isnull v = false → isnull w = false →
         py_eqb v w = true.
Proof.
  set (nn := List.filter (fun v => negb (isnull v)) col).
  assert (Hnn : ∀ v, In v nn ↔ In v col ∧ isnull v = false).
  { intros v. unfold nn. rewrite filter_In, negb_true_iff. tauto. }
  split.
  - intros Hlen.
    destruct (py_unique nn) as [|u [|]] eqn:Hu; try done. clear Hlen.
    assert (Hrep : ∀ v, In v col → isnull v = false → py_eqb v u = true).
    { intros v Hv Hnull.
      pose proof (py_unique_represents nn v Hnull (proj2 (Hnn v) (conj Hv Hnull)))
        as Hrep.
      rewrite Hu in Hrep. simpl in Hrep. by rewrite orb_false_r in Hrep. }
    split.
    + exists u. apply Hnn, py_unique_incl. rewrite Hu. by left.
    + intros v w Hv Hw Hnv Hnw.
      apply py_eqb_trans with u; [by apply Hrep|]. by apply py_eqb_sym, Hrep.
  - intros [(v & Hv & Hnull) Hall].
    assert (Hle : List.length (py_unique nn) ≤ 1).
    { apply py_distinct_all_equal; [apply py_unique_distinct|].
      intros a b [Ha Hna]%py_unique_incl%Hnn [Hb Hnb]%py_unique_incl%Hnn.
      by apply Hall. }
    pose proof (py_unique_represents nn v Hnull (proj2 (Hnn v) (conj Hv Hnull)))
      as Hrep.
    destruct (py_unique nn) as [|u [|]]; simpl in *; [done|done|lia].
Qed.

Lemma find_uninfo_cols_elem df name :
  name ∈ find_uninfo_cols df ↔
  ∃ col, (name, col) ∈ df_data df ∧
    List.length (py_unique (List.filter (fun v => negb (isnull v)) col)) = 1.
Proof.
  unfold find_uninfo_cols. rewrite list_elem_of_In, in_map_iff. split.
  - intros ([n k] & <- & [Hin Hk]%filter_In).
    apply in_map_iff in Hin as ([n' col] & [= <- <-] & Hin).
    exists col. split; [by apply list_elem_of_In|]. by apply Nat.eqb_eq.
  - intros (col & Hin & Hlen).
    exists (name, 1). split; [done|]. apply filter_In. split; [|done].
    apply in_map_iff. exists (name, col). simpl. rewrite Hlen.
    split; [done|by apply list_elem_of_In].
Qed.

(** X4: [find_uninfo_cols] reports exactly the columns that have a non-null
    value and whose non-null values are all equal; a column of nulls only is
    not reported. *)
Theorem find_uninfo_cols_reports df name :
  name ∈ find_uninfo_cols df ↔
  ∃ col, (name, col) ∈ df_data df ∧
    (∃ v, v ∈ col ∧ isnull v = false) ∧
    ∀ v w, v ∈ col → w ∈ col → isnull v = false → isnull w = false →
           py_eqb v w = true.
Proof.
  rewrite find_uninfo_cols_elem.
  split; intros (col & Hin & H); exists col; (split; [done|]).
  - apply uninfo_col_spec in H as [(v & Hv & Hnull) Hall]. split.
    + exists v. split; [by apply list_elem_of_In|done].
    + intros a b Ha%list_elem_of_In Hb%list_elem_of_In. by apply Hall.
  - destruct H as [(v & Hv%list_elem_of_In & Hnull) Hall].
    apply uninfo_col_spec. split; [by eauto|].
    intros a b Ha%list_elem_of_In Hb%list_elem_of_In. by apply Hall.
Qed.

(** X5: in a table with at least one row and distinct column names, a column
    all of whose entries are null is reported by [find_null_cols] at 1.0 and
    by [find_binary_cols], and not by [find_uninfo_cols]. *)
Theorem all_null_column_detected df name col :
  0 < df_nrows df → NoDup (columns df) →
  (name, col) ∈ df_data df → List.length col = df_nrows df →
  forallb isnull col = true →
  (∃ res, find_null_cols df (FFin 1) = Return res ∧ name ∈ res) ∧
  name ∈ find_binary_cols df ∧
  name ∉ find_uninfo_cols df.
Proof.
  intros Hrows Hnd Hin Hlen Hall.
  assert (Hnull : ∀ v, In v col → isnull v = true).
  { by apply forallb_forall. }
  split; [|split].
  - unfold find_null_cols. rewrite apply_columns_div by lia.
    eexists. split; [reflexivity|].
    rewrite list_elem_of_In, in_map_iff.
    exists (name, FFin (null_fraction (df_nrows df) col)). split; [done|].
    apply filter_In. split.
    + apply in_map_iff. exists (name, col). split; [done|by apply list_elem_of_In].
    + apply fraction_ge_one; [lia|]. apply filter_length_all in Hall.
      rewrite Hall. lia.
  - unfold find_binary_cols. rewrite list_elem_of_In, in_map_iff.
    exists (name, col). split; [done|]. apply filter_In.
    split; [by apply list_elem_of_In|]. apply binary_col_spec.
    intros v Hv Hv'. by rewrite (Hnull v Hv) in Hv'.
  - intros (col' & Hin' & Hone)%find_uninfo_cols_elem.
    assert (col' = col) as ->.
    { pose proof (elem_of_list_to_map_1 (M := gmap string) _ _ _ Hnd Hin) as H1.
      pose proof (elem_of_list_to_map_1 (M := gmap string) _ _ _ Hnd Hin') as H2.
      congruence. }
    apply uninfo_col_spec in Hone as [(v & Hv & Hv') _].
    by rewrite (Hnull v Hv) in Hv'.
Qed.

Lemma all_null_column_detected_witness :
  (∃ res, find_null_cols (Examples.one_column [PNone; PFloat FNan]) (FFin 1)
          = Return res ∧ "X" ∈ res) ∧
  "X" ∈ find_binary_cols (Examples.one_column [PNone; PFloat FNan]) ∧
  "X" ∉ find_uninfo_cols (Examples.one_column [PNone; PFloat FNan]).
Proof.
  apply (all_null_column_detected (Examples.one_column [PNone; PFloat FNan])
           "X" [PNone; PFloat FNan]).
  - simpl. lia.
  - simpl. apply NoDup_singleton.
  - simpl. left.
  - reflexivity.
  - reflexivity.
Defined.

Lemma float_leb_trans a b c :
  float_leb a b = true → float_leb b c = true → float_leb a c = true.
Proof.
  destruct a, b, c; simpl; try done.
  rewrite !Qle_bool_iff. apply Qle_trans.
Qed.

Lemma sublist_map_filter {A B} (h : A → B) (f g : A → bool) (l : list A) :
  (∀ x, g x = true → f x = true) →
  sublist (List.map h (List.filter g l)) (List.map h (List.filter f l)).
Proof.
  intros Hgf. induction l as [|a l IH]; simpl; [constructor|].
  destruct (g a) eqn:Hg.
  - rewrite (Hgf a Hg). simpl. by constructor.
  - destruct (f a); simpl; [by constructor|done].
Qed.

(** X6: on a table with at least one row, raising the fraction only removes
    columns: the result at the higher fraction is the result at the lower
    one with some columns left out, in the same order. *)
Theorem find_null_cols_antitone df frac1 frac2 :
  0 < df_nrows df → float_leb frac1 frac2 = true →
  ∃ res1 res2, find_null_cols df frac1 = Return res1 ∧
               find_null_cols df frac2 = Return res2 ∧
               sublist res2 res1.
Proof.
  intros Hrows Hle. unfold find_null_cols.
  rewrite apply_columns_div by lia. do 2 eexists.
  split; [reflexivity|]. split; [reflexivity|].
  apply sublist_map_filter. intros [n x]. unfold float_geb. simpl.
  by apply float_leb_trans.
Qed.

Lemma find_null_cols_antitone_witness :
  ∃ res1 res2,
    find_null_cols (Examples.one_column [PNone; PInt 1]) (FFin (1 # 2)) = Return res1 ∧
    find_null_cols (Examples.one_column [PNone; PInt 1]) (FFin 1) = Return res2 ∧
    sublist res2 res1.
Proof.
  apply (find_null_cols_antitone (Examples.one_column [PNone; PInt 1])
           (FFin (1 # 2)) (FFin 1)).
  - simpl. lia.
  - reflexivity.
Defined.

(** * Comparing frames *)

Lemma length_df_values df :
  List.length (df_values df) = df_nrows df * List.length (df_data df).
Proof.
  unfold df_values. generalize 0 as start.
  induction (df_nrows df) as [|n IH]; intros start; simpl; [done|].
  by rewrite length_app, length_map, IH.
Qed.

Lemma equal_loop_in_range l1 l2 :
  List.length l1 ≤ List.length l2 → equal_loop l1 l2 ≠ IndexError.
Proof.
  revert l2. induction l1 as [|a l1 IH]; intros [|b l2]; simpl; try done; [lia|].
  intros Hlen. destruct (cells_equal a b) as [[]| |] eqn:Hc; try done.
  - apply IH. lia.
  - unfold cells_equal in Hc.
    by repeat (match type of Hc with context [match ?x with _ => _ end] =>
                 destruct x end).
Qed.

Lemma np_isnan_plain v :
  plain_cell v = true → is_str v = false → np_isnan v = Some (isnull v).
Proof. destruct v; simpl; try done. by intros ->. Qed.

Lemma isnull_str v : is_str v = true → isnull v = false.
Proof. by destruct v. Qed.

Lemma py_eqb_null_l a b : isnull a = true → py_eqb a b = true → isnull b = true.
Proof. destruct a as [?|[]|?|], b as [?|[]|?|]; done. Qed.

Lemma cells_equal_plain a b :
  plain_cell a = true → plain_cell b = true →
  cells_equal a b = Verdict (cells_match a b).
Proof.
  intros Ha Hb. unfold cells_equal, cells_match.
  destruct (is_str a) eqn:Ea; simpl.
  { by rewrite (isnull_str a Ea). }
  destruct (is_str b) eqn:Eb; simpl.
  { by rewrite (isnull_str b Eb), andb_false_r. }
  rewrite (np_isnan_plain a Ha Ea), (np_isnan_plain b Hb Eb).
  destruct (isnull a) eqn:Na; simpl; [|done].
  destruct (isnull b) eqn:Nb; simpl; [done|].
  destruct (py_eqb a b) eqn:E; [|done].
  by rewrite (py_eqb_null_l a b Na E) in Nb.
Qed.

Lemma cells_equal_self a :
  cells_equal a a = if plain_cell a then Verdict true else TypeError.
Proof.
  destruct (plain_cell a) eqn:Ha.
  - rewrite cells_equal_plain by done. unfold cells_match.
    destruct (isnull a) eqn:Na; simpl; [done|]. by rewrite py_eqb_refl.
  - destruct a as [z| | |]; try done.
    unfold cells_equal. simpl in *. by rewrite Ha.
Qed.

Lemma equal_loop_self l :
  equal_loop l l = if forallb plain_cell l then Verdict true else TypeError.
Proof.
  induction l as [|a l IH]; simpl; [done|].
  rewrite cells_equal_self. by destruct (plain_cell a).
Qed.


Lemma py_eqb_comm a b : py_eqb a b = py_eqb b a.
Proof.
  destruct (py_eqb a b) eqn:E1, (py_eqb b a) eqn:E2; try done.
  - apply py_eqb_sym in E1. congruence.
  - apply py_eqb_sym in E2. congruence.
Qed.

Lemma cells_match_comm a b : cells_match a b = cells_match b a.
Proof. unfold cells_match. by rewrite andb_comm, py_eqb_comm. Qed.

Lemma equal_loop_comm l1 l2 :
  forallb plain_cell l1 = true → forallb plain_cell l2 = true →
  List.length l1 = List.length l2 →
  equal_loop l1 l2 = equal_loop l2 l1.
Proof.
  revert l2. induction l1 as [|a l1 IH]; intros [|b l2]; simpl; try done.
  intros [Ha H1]%andb_true_iff [Hb H2]%andb_true_iff [= Hlen].
  rewrite !cells_equal_plain, (cells_match_comm b a) by done.
  destruct (cells_match a b); [by apply IH|done].
Qed.

(** X7: a frame compared with itself: [df_equal] raises [TypeError] when the
    frame has a single cell, or a cell that is [None] or an integer beyond
    64 bits, and returns [True] otherwise, NaN cells included; it never
    returns [False]. *)
Theorem df_equal_self df :
  df_equal df df =
    if (df_nrows df * List.length (df_data df) =? 1)
       || negb (forallb plain_cell (df_values df))
    then TypeError else Verdict true.
Proof.
  unfold df_equal, df_shape. cbn [fst snd]. rewrite !Nat.eqb_refl. simpl.
  destruct (_ =? 1); [done|]. simpl. rewrite equal_loop_self.
  by destruct (forallb plain_cell (df_values df)).
Qed.



(** X9: on frames without [None] cells and without integers beyond 64 bits,
    the order of the two frames does not matter to [df_equal]. *)
Theorem df_equal_symmetric df1 df2 :
  forallb plain_cell (df_values df1) = true →
  forallb plain_cell (df_values df2) = true →
  df_equal df1 df2 = df_equal df2 df1.
Proof.
  intros H1 H2. unfold df_equal.
  rewrite (Nat.eqb_sym (fst (df_shape df2))), (Nat.eqb_sym (snd (df_shape df2))).
  destruct (fst (df_shape df1) =? fst (df_shape df2)) eqn:Er; [|done].
  destruct (snd (df_shape df1) =? snd (df_shape df2)) eqn:Ec; [|done].
  apply Nat.eqb_eq in Er, Ec. cbn [negb andb]. rewrite Er, Ec.
  destruct (_ =? 1); [done|].
  apply equal_loop_comm; [done|done|].
  rewrite !length_df_values. unfold df_shape in *. simpl in *. by rewrite Er, Ec.
Qed.

Lemma df_equal_symmetric_witness :
  df_equal (Samples.two_rows (PInt 1) (PFloat FNan)) (Samples.two_rows (PStr "1") (PFloat FNan))
  = df_equal (Samples.two_rows (PStr "1") (PFloat FNan)) (Samples.two_rows (PInt 1) (PFloat FNan)).
Proof.
  apply (df_equal_symmetric (Samples.two_rows (PInt 1) (PFloat FNan))
           (Samples.two_rows (PStr "1") (PFloat FNan))); reflexivity.
Defined.

(** With a [None] cell the order of the frames matters. *)
Example df_equal_none_order :
  df_equal (Samples.two_rows (PInt 1) (PInt 1)) (Samples.two_rows PNone (PInt 1)) = Verdict false ∧
  df_equal (Samples.two_rows PNone (PInt 1)) (Samples.two_rows (PInt 1) (PInt 1)) = TypeError.
Proof. split; reflexivity. Qed.

(** X10: [l2[t]] never reads past the end of [l2]: [df_equal] does not raise
    [IndexError]. *)
Theorem df_equal_in_range df1 df2 : df_equal df1 df2 ≠ IndexError.
Proof.
  unfold df_equal.
  destruct (fst (df_shape df1) =? fst (df_shape df2)) eqn:Er; [|done].
  destruct (snd (df_shape df1) =? snd (df_shape df2)) eqn:Ec; [|done].
  apply Nat.eqb_eq in Er, Ec. cbn [negb andb].
  destruct (_ =? 1); [done|]. apply equal_loop_in_range.
  rewrite !length_df_values. unfold df_shape in *. simpl in *. by rewrite Er, Ec.
Qed.

(** * The null summary of two frames *)

Section NullSummary.

Context {A : Type}.
Variable test : DataFrame.
Variable add_info_dicts : list (gmap string A).
Variable n_train : nat.

Lemma percent_Return num n :
  n ≠ 0 → percent num n = Return (FFin (percent_of num n)).
Proof. intros Hn. unfold percent. apply Nat.eqb_neq in Hn. by rewrite Hn. Qed.

Lemma percent_zero num : percent num 0 = Raise ZeroDivisionError.
Proof. done. Qed.


Lemma lookup_all_raises c e :
  lookup_all add_info_dicts c = Raise e → e = KeyError c.
Proof.
  induction add_info_dicts as [|d ds IH]; simpl; [done|].
  destruct (d !! c); [|congruence].
  by destruct (lookup_all ds c).
Qed.

Lemma lookup_all_finishes c :
  lookup_all add_info_dicts c ≠ Blocks ∧ lookup_all add_info_dicts c ≠ OutOfFuel.
Proof.
  induction add_info_dicts as [|d ds IH]; simpl; [done|].
  destruct (d !! c); [|done].
  destruct IH. by destruct (lookup_all ds c).
Qed.

Lemma null_reported_eq c col :
  negb (List.length (List.filter isnull col) =? 0) || (0 <? null_count_test test c)
  = null_reported test (c, col).
Proof. unfold null_reported, null_cells. simpl. by destruct (List.length _). Qed.

(** The loop, one column further: what the body does when both frames
    have rows. *)
Lemma nulls_loop_cons c col rest :
  n_train ≠ 0 → df_nrows test ≠ 0 →
  nulls_loop n_train test add_info_dicts ((c, col) :: rest) =
    if null_reported test (c, col) then
      info ← lookup_all add_info_dicts c;
      rows ← nulls_loop n_train test add_info_dicts rest;
      Return ({| nr_column := c; nr_null_train := null_cells col;
                 nr_perc_train := FFin (percent_of (null_cells col) n_train);
                 nr_null_test := null_count_test test c;
                 nr_perc_test :=
                   FFin (percent_of (null_count_test test c) (df_nrows test));
                 nr_info := info |} :: rows)
    else nulls_loop n_train test add_info_dicts rest.
Proof.
  intros Htrain Htest. cbn [nulls_loop].
  rewrite !percent_Return by done. cbn [mbind outcome_bind bind].
  by rewrite (null_reported_eq c col).
Qed.


Lemma nulls_loop_Return cols rows c col :
  nulls_loop n_train test add_info_dicts cols = Return rows →
  (c, col) ∈ cols → null_reported test (c, col) = true →
  ∃ r, r ∈ rows ∧ nr_column r = c ∧ nr_null_train r = null_cells col ∧
       nr_null_test r = null_count_test test c ∧
       percent (null_count_test test c) (df_nrows test) = Return (nr_perc_test r).
Proof.
  revert rows. induction cols as [|[c' col'] rest IH]; intros rows Hrun Hin Hrep.
  { by apply elem_of_nil in Hin. }
  cbn [nulls_loop] in Hrun.
  destruct (percent _ n_train) as [pt| | |] eqn:Ept; try done.
  cbn [mbind outcome_bind bind] in Hrun.
  destruct (percent (null_count_test test c') (df_nrows test)) as [pe| | |] eqn:Epe;
    try done.
  cbn [mbind outcome_bind bind] in Hrun.
  rewrite (null_reported_eq c' col') in Hrun.
  apply elem_of_cons in Hin as [[= -> ->]|Hin].
  - rewrite Hrep in Hrun.
    destruct (lookup_all add_info_dicts c') as [info| | |]; try done.
    cbn [mbind outcome_bind bind] in Hrun.
    destruct (nulls_loop n_train test add_info_dicts rest) as [rs| | |]; try done.
    injection Hrun as <-. eexists. split; [left|]. by simpl.
  - destruct (null_reported test (c', col')).
    + destruct (lookup_all add_info_dicts c') as [info| | |]; try done.
      cbn [mbind outcome_bind bind] in Hrun.
      destruct (nulls_loop n_train test add_info_dicts rest) as [rs| | |] eqn:Er;
        try done.
      injection Hrun as <-.
      destruct (IH rs eq_refl Hin Hrep) as (r & Hr & ?). exists r.
      split; [by right|done].
    + by apply IH.
Qed.

Lemma nulls_loop_raises cols e :
  n_train ≠ 0 → df_nrows test ≠ 0 →
  nulls_loop n_train test add_info_dicts cols = Raise e →
  ∃ c, e = KeyError c ∧ c ∈ cols.*1.
Proof.
  intros Htrain Htest. induction cols as [|[c col] rest IH]; [done|].
  rewrite nulls_loop_cons by done.
  destruct (null_reported test (c, col)).
  - destruct (lookup_all add_info_dicts c) as [info|e'| |] eqn:El; simpl.
    + destruct (nulls_loop n_train test add_info_dicts rest); simpl; try done.
      intros [= <-]. destruct IH as (c' & -> & Hc'); [done|].
      exists c'. split; [done|by right].
    + intros [= <-]. apply lookup_all_raises in El as ->.
      exists c. split; [done|by left].
    + done.
    + done.
  - intros (c' & -> & Hc')%IH. exists c'. split; [done|by right].
Qed.

End NullSummary.

Lemma null_count_test_missing test c :
  c ∉ columns test → null_count_test test c = df_nrows test.
Proof.
  intros Hc. unfold null_count_test, df_get.
  destruct (find _ (df_data test)) as [[c' col]|] eqn:Hf; [|done].
  apply find_some in Hf as [Hin Heq]. simpl in Heq. apply String.eqb_eq in Heq as ->.
  destruct Hc. unfold columns. apply list_elem_of_fmap. exists (c, col).
  split; [done|by apply list_elem_of_In].
Qed.

Lemma percent_all n : n ≠ 0 → Qeq_bool (percent_of n n) 100 = true.
Proof.
  intros Hn. apply Qeq_bool_iff. unfold percent_of. apply Qdiv_mult_l.
  change 0%Q with (inject_Z 0). rewrite inject_Z_injective. lia.
Qed.



Lemma nulls_loop_zero {A} n_train test (dicts : list (gmap string A)) p rest :
  n_train = 0 ∨ df_nrows test = 0 →
  nulls_loop n_train test dicts (p :: rest) = Raise ZeroDivisionError.
Proof.
  destruct p as [c col]. cbn [nulls_loop]. intros [-> | Htest]; [done|].
  destruct n_train as [|n]; [done|].
  rewrite (percent_Return _ (S n)) by done. cbn [mbind outcome_bind bind].
  by rewrite Htest, percent_zero.
Qed.

(** X12: a training column the test frame does not have is always reported,
    with all the rows of the test frame as its null count there, which is
    100 percent. *)
Theorem missing_test_column_reported {A} train test names
    (dicts : list (gmap string A)) colnames rows c col :
  summarize_nulls train test names dicts = Return (colnames, rows) →
  (c, col) ∈ df_data train → c ∉ columns test →
  ∃ r, r ∈ rows ∧ nr_column r = c ∧ nr_null_train r = null_cells col ∧
       nr_null_test r = df_nrows test ∧
       float_eqb (nr_perc_test r) (FFin 100) = true.
Proof.
  intros Hrun Hin Hc. unfold summarize_nulls in Hrun.
  destruct (nulls_loop _ _ _ _) as [rs| | |] eqn:Hloop; try done.
  injection Hrun as _ <-.
  assert (Htest : df_nrows test ≠ 0).
  { intros Hz. destruct (df_data train) as [|p rest]; [by apply elem_of_nil in Hin|].
    rewrite nulls_loop_zero in Hloop by (by right). done. }
  pose proof (null_count_test_missing test c Hc) as Hcount.
  destruct (nulls_loop_Return test dicts (df_nrows train) _ _ c col Hloop Hin)
    as (r & Hr & Hcol & Htrain & Hnt & Hperc).
  { unfold null_reported. cbn [fst snd]. rewrite Hcount.
    apply orb_true_iff. right. apply Nat.ltb_lt. lia. }
  exists r. rewrite Hcount in *. repeat (split; [done|]).
  rewrite percent_Return in Hperc by done. injection Hperc as <-.
  by apply percent_all.
Qed.

Lemma missing_test_column_reported_witness :
  ∃ colnames rows,
    summarize_nulls (A := nat) (Samples.frame_XY [PNone; PInt 1] [PInt 2; PInt 3])
      (Examples.one_column [PInt 1; PInt 1; PInt 1]) [] []
    = Return (colnames, rows) ∧
    ∃ r, r ∈ rows ∧ nr_column r = "Y" ∧ nr_null_train r = 0 ∧
         nr_null_test r = 3 ∧ float_eqb (nr_perc_test r) (FFin 100) = true.
Proof.
  do 2 eexists. split; [vm_compute; reflexivity|].
  eapply (missing_test_column_reported (A := nat)
            (Samples.frame_XY [PNone; PInt 1] [PInt 2; PInt 3])
            (Examples.one_column [PInt 1; PInt 1; PInt 1]) [] [] _ _ "Y"
            [PInt 2; PInt 3]).
  - vm_compute. reflexivity.
  - right. left.
  - simpl. intros H. repeat (apply elem_of_cons in H as [H|H]; [discriminate H|]).
    by apply elem_of_nil in H.
Defined.

(** X13: [summarize_nulls] raises [ZeroDivisionError] exactly when the
    training frame has a column and one of the two frames has no rows. *)
Theorem summarize_nulls_zero_division {A} train test names
    (dicts : list (gmap string A)) :
  summarize_nulls train test names dicts = Raise ZeroDivisionError ↔
  df_data train ≠ [] ∧ (df_nrows train = 0 ∨ df_nrows test = 0).
Proof.
  unfold summarize_nulls. split.
  - intros Hrun. destruct (df_data train) as [|p rest] eqn:Hdata; [done|].
    split; [done|].
    destruct (decide (df_nrows train = 0)) as [|Htrain]; [by left|].
    destruct (decide (df_nrows test = 0)) as [|Htest]; [by right|].
    destruct (nulls_loop _ _ _ _) as [rs|e| |] eqn:Hloop; try done.
    injection Hrun as ->.
    by apply nulls_loop_raises in Hloop as (c & ? & _).
  - intros [Hdata Hz]. destruct (df_data train) as [|p rest]; [done|].
    by rewrite nulls_loop_zero.
Qed.

Lemma is_null_or_blank_cases v :
  _is_null_or_blank v = isnull v || empty_text v.
Proof.
  destruct v as [z|f|s|]; unfold _is_null_or_blank, empty_text; cbn [py_eqb isnull truthy].
  - rewrite orb_false_r. by destruct (Z.eqb z 0).
  - rewrite orb_false_r.
    destruct (float_eqb f (FFin (inject_Z 0))) eqn:E.
    + by destruct f.
    + change (FFin (inject_Z 0)) with (FFin 0) in E. by rewrite E.
  - simpl. by destruct (String.eqb s "").
  - done.
Qed.

Lemma null_or_blank_cell v :
  (if _is_null_or_blank v then 1 else 0)
  = (if isnull v then 1 else 0) + (if empty_text v then 1 else 0).
Proof.
  rewrite is_null_or_blank_cases.
  destruct v as [z|f|s|]; [done| |done|done].
  simpl. by destruct (isnan f).
Qed.

Lemma null_or_blank_count col :
  List.length (List.filter _is_null_or_blank col)
  = null_cells col + List.length (List.filter empty_text col).
Proof.
  unfold null_cells. induction col as [|v col IH]; [done|].
  cbn [List.filter]. pose proof (null_or_blank_cell v) as Hv.
  destruct (_is_null_or_blank v), (isnull v), (empty_text v); simpl in *; lia.
Qed.

(** X14: the row count of [summarize_training_data] is the frame's, and the
    null count of each column is the number of its [None] and NaN cells plus
    the number of its empty texts: a zero is not counted, and neither is a
    text of blanks. *)
Theorem table_null_counts float_of_string df y summary n lc :
  summarize_training_data float_of_string df y = Return (summary, n, lc) →
  n = df_nrows df ∧
  Forall2 (fun p r =>
             t_attribute r = fst p ∧
             t_n_null r = null_cells (snd p)
                          + List.length (List.filter empty_text (snd p)))
          (df_data df) summary.
Proof.
  unfold summarize_training_data.
  destruct (df_get df y) as [labels| | |]; try done.
  cbn [mbind outcome_bind bind]. intros [= <- <- _]. split; [done|].
  induction (df_data df) as [|[c col] rest IH]; simpl; constructor; [|exact IH].
  unfold summarize_column. destruct (_get_min_max _ _). simpl.
  split; [done|]. apply null_or_blank_count.
Qed.

Lemma table_null_counts_witness :
  ∃ summary lc,
    summarize_training_data Examples.decimal_float
      (Examples.one_column [PInt 0; PStr ""; PNone; PFloat FNan; PStr " "]) "X"
    = Return (summary, 5, lc) ∧
    Forall2 (fun p r =>
               t_attribute r = fst p ∧
               t_n_null r = null_cells (snd p)
                            + List.length (List.filter empty_text (snd p)))
            [("X", [PInt 0; PStr ""; PNone; PFloat FNan; PStr " "])] summary.
Proof.
  destruct (summarize_training_data Examples.decimal_float
              (Examples.one_column [PInt 0; PStr ""; PNone; PFloat FNan; PStr " "]) "X")
    as [[[summary n] lc]| | |] eqn:Hrun; try (vm_compute in Hrun; discriminate Hrun).
  destruct (table_null_counts Examples.decimal_float _ "X" summary n lc Hrun)
    as [-> Hrows].
  exists summary, lc. split; [reflexivity|exact Hrows].
Defined.




(** * Counting the values of a column of a file *)

Lemma total_count_empty {K} `{Countable K} : total_count (∅ : gmap K nat) = 0.
Proof. unfold total_count. by rewrite map_fold_empty. Qed.

Lemma total_count_incr {K} `{Countable K} (m : gmap K nat) l :
  total_count (<[l := default 0 (m !! l) + 1]> m) = total_count m + 1.
Proof.
  unfold total_count.
  assert (Hcomm : ∀ (m' : gmap K nat) (j1 j2 : K) (z1 z2 y : nat),
    j1 ≠ j2 → m' !! j1 = Some z1 → m' !! j2 = Some z2 →
    z1 + (z2 + y) = z2 + (z1 + y)) by (intros; lia).
  destruct (m !! l) as [v|] eqn:E; simpl.
  - rewrite <- (insert_delete_eq m l (v + 1)).
    rewrite map_fold_insert_L; [|by apply Hcomm|by apply lookup_delete_eq].
    rewrite <- (insert_delete_id m l v E) at 2.
    rewrite map_fold_insert_L; [|by apply Hcomm|by apply lookup_delete_eq].
    lia.
  - rewrite map_fold_insert_L; [lia|by apply Hcomm|done].
Qed.

Lemma fst_zip_take {A B} (l : list A) (k : list B) :
  (zip l k).*1 = take (List.length k) l.
Proof.
  revert k. induction l as [|a l IH]; intros [|b k]; simpl; try done.
  by rewrite IH.
Qed.

Lemma make_row_dict_None fieldnames row c :
  make_row_dict fieldnames row !! c = None ↔ c ∉ take (List.length row) fieldnames.
Proof.
  unfold make_row_dict. rewrite <- not_elem_of_list_to_map.
  by rewrite fmap_reverse, elem_of_reverse, fst_zip_take.
Qed.

Lemma make_row_dict_cell fieldnames row j c raw :
  NoDup fieldnames → fieldnames !! j = Some c → row !! j = Some raw →
  make_row_dict fieldnames row !! c = Some raw.
Proof.
  intros Hnd Hc Hraw. unfold make_row_dict. apply elem_of_list_to_map_1.
  - rewrite fmap_reverse, fst_zip_take, reverse_Permutation.
    rewrite <- (take_drop (List.length row) fieldnames) in Hnd.
    by apply NoDup_app in Hnd as [? _].
  - apply elem_of_reverse, list_elem_of_lookup. exists j. by apply lookup_zip_Some.
Qed.

Lemma fill_missing_lookup (d : gmap string (option string)) keys c :
  foldl (fun d key => <[key := None]> d) d keys !! c
  = if decide (c ∈ keys) then Some None else d !! c.
Proof.
  revert d. induction keys as [|k keys IH]; intros d; cbn [foldl].
  - by rewrite decide_False by apply not_elem_of_nil.
  - rewrite IH. destruct (decide (c ∈ keys)) as [Hin|Hnin].
    + by rewrite decide_True by (by right).
    + destruct (decide (c = k)) as [->|Hne].
      * rewrite decide_True by left. by rewrite lookup_insert_eq.
      * rewrite lookup_insert_ne by done.
        rewrite decide_False; [done|]. by intros [?|?]%elem_of_cons.
Qed.

(** A name of the header is a key of every dictionary, a name that is not
    in the header is a key of none. *)
Lemma dict_reader_row_key fieldnames row c :
  is_Some (dict_reader_row fieldnames row !! c) ↔ c ∈ fieldnames.
Proof.
  unfold dict_reader_row.
  assert (Hd : is_Some ((Some <$> make_row_dict fieldnames row : gmap _ _) !! c)
               ↔ c ∈ take (List.length row) fieldnames).
  { rewrite lookup_fmap, fmap_is_Some, <- not_eq_None_Some, make_row_dict_None.
    split; [apply dec_stable|by intros ? ?]. }
  assert (Hsplit : c ∈ fieldnames ↔
            c ∈ take (List.length row) fieldnames ∨
            c ∈ drop (List.length row) fieldnames).
  { by rewrite <- elem_of_app, take_drop. }
  destruct (_ <? _) eqn:Hlt.
  - rewrite fill_missing_lookup. case_decide; [by split; eauto; tauto|].
    rewrite Hd. tauto.
  - apply Nat.ltb_ge in Hlt. rewrite (drop_ge fieldnames) in Hsplit by done.
    rewrite elem_of_nil in Hsplit. rewrite Hd. tauto.
Qed.

(** Under a header without repeated names, the dictionary holds the cell
    at the place of the name, and [None] when the record has no such cell. *)
Lemma dict_reader_row_cell fieldnames row j c :
  NoDup fieldnames → fieldnames !! j = Some c →
  dict_reader_row fieldnames row !! c = Some (row !! j).
Proof.
  intros Hnd Hc. unfold dict_reader_row.
  pose proof (lookup_lt_Some _ _ _ Hc) as Hj.
  destruct (row !! j) as [raw|] eqn:Hraw.
  - pose proof (lookup_lt_Some _ _ _ Hraw) as Hjr.
    assert (Hd : (Some <$> make_row_dict fieldnames row : gmap _ _) !! c
                 = Some (Some raw)).
    { by rewrite lookup_fmap, (make_row_dict_cell _ _ j c raw). }
    destruct (_ <? _); [|done].
    rewrite fill_missing_lookup, decide_False; [done|].
    intros (i & Hi)%list_elem_of_lookup. rewrite lookup_drop in Hi.
    pose proof (NoDup_lookup _ _ _ _ Hnd Hc Hi). lia.
  - apply lookup_ge_None in Hraw.
    assert (Hlt : (List.length row <? List.length fieldnames) = true)
      by (apply Nat.ltb_lt; lia).
    rewrite Hlt, fill_missing_lookup, decide_True; [done|].
    apply list_elem_of_lookup. exists (j - List.length row).
    rewrite lookup_drop.
    replace (List.length row + (j - List.length row)) with j by lia. done.
Qed.

Lemma count_loop_total fieldnames c rows vc vc' :
  count_loop fieldnames c rows vc = Return vc' →
  total_count vc' = total_count vc + List.length (data_records (fieldnames :: rows)).
Proof.
  unfold data_records. cbn [tail].
  revert vc. induction rows as [|row rest IH]; intros vc; cbn [count_loop List.filter].
  - intros [= <-]. simpl. lia.
  - destruct row as [|cell row]; [intros Hrun%IH; lia|].
    destruct (dict_reader_row fieldnames (cell :: row) !! c) as [v|]; [|done].
    intros Hrun%IH. rewrite Hrun, total_count_incr. simpl. lia.
Qed.

(** X16: the counts [count_big_file_value_counts] returns add up to the
    number of non-empty records after the header. *)
Theorem value_counts_total reader colname vc :
  count_big_file_value_counts reader colname = Return vc →
  total_count vc = List.length (data_records reader).
Proof.
  destruct reader as [|fieldnames rows]; simpl.
  - intros [= <-]. apply total_count_empty.
  - intros Hrun%count_loop_total. by rewrite Hrun, total_count_empty.
Qed.

Lemma value_counts_total_witness :
  ∃ vc, count_big_file_value_counts [["a"; "b"]; ["1"; "x"]; []; ["2"]; ["1"; "y"; "z"]] "b"
        = Return vc ∧
        total_count vc = 3.
Proof.
  eexists. split; [vm_compute; reflexivity|].
  apply (value_counts_total [["a"; "b"]; ["1"; "x"]; []; ["2"]; ["1"; "y"; "z"]] "b").
  vm_compute. reflexivity.
Defined.

Lemma count_loop_known fieldnames c rows vc :
  c ∈ fieldnames → ∃ vc', count_loop fieldnames c rows vc = Return vc'.
Proof.
  intros Hc. revert vc. induction rows as [|row rest IH]; intros vc; simpl; [eauto|].
  destruct row as [|cell row]; [apply IH|].
  destruct (proj2 (dict_reader_row_key fieldnames (cell :: row) c) Hc) as [v ->].
  apply IH.
Qed.

Lemma count_loop_unknown fieldnames c rows vc :
  c ∉ fieldnames →
  count_loop fieldnames c rows vc =
    if decide (data_records (fieldnames :: rows) = []) then Return vc
    else Raise (KeyError c).
Proof.
  intros Hc. unfold data_records. cbn [tail].
  induction rows as [|row rest IH]; cbn [count_loop List.filter]; [done|].
  destruct row as [|cell row]; [done|].
  destruct (dict_reader_row fieldnames (cell :: row) !! c) as [v|] eqn:Hv; [|done].
  destruct Hc. apply dict_reader_row_key with (cell :: row). eauto.
Qed.

(** X17: [count_big_file_value_counts] returns when the column is in the
    header or no non-empty record follows the header (a source without
    header included), and raises [KeyError] with the column name otherwise. *)
Theorem value_counts_outcome reader colname :
  match count_big_file_value_counts reader colname with
  | Return _ => colname ∈ hd [] reader ∨ data_records reader = []
  | Raise e =>
      e = KeyError colname ∧ (colname ∉ hd [] reader) ∧ data_records reader ≠ []
  | _ => False
  end.
Proof.
  destruct reader as [|fieldnames rows]; cbn [count_big_file_value_counts hd].
  { by right. }
  destruct (decide (colname ∈ fieldnames)) as [Hc|Hc].
  - destruct (count_loop_known fieldnames colname rows ∅ Hc) as [vc ->]. by left.
  - rewrite count_loop_unknown by done. case_decide; [by right|done].
Qed.

Lemma count_loop_cells fieldnames j c rows vc :
  NoDup fieldnames → fieldnames !! j = Some c →
  ∃ vc', count_loop fieldnames c rows vc = Return vc' ∧
    ∀ k, default 0 (vc' !! k) =
         default 0 (vc !! k)
         + List.length (List.filter (fun row => bool_decide (row !! j = k))
                          (data_records (fieldnames :: rows))).
Proof.
  intros Hnd Hc. unfold data_records. cbn [tail].
  revert vc. induction rows as [|row rest IH]; intros vc; cbn [count_loop List.filter].
  - exists vc. split; [done|]. intros k. simpl. lia.
  - destruct row as [|cell row]; [apply IH|].
    rewrite (dict_reader_row_cell fieldnames (cell :: row) j c Hnd Hc).
    destruct (IH (<[(cell :: row) !! j := default 0 (vc !! ((cell :: row) !! j)) + 1]> vc))
      as (vc' & -> & Hvc').
    exists vc'. split; [done|]. intros k. rewrite Hvc'. cbn [List.filter].
    case_bool_decide as Hk.
    + subst k. rewrite lookup_insert_eq. simpl. lia.
    + rewrite lookup_insert_ne by done. lia.
Qed.

(** X18: under a header without repeated names, with the column at place
    [j], the count of a value is the number of non-empty records whose cell
    [j] is that value; the records too short to have a cell [j] are counted
    under [None]. *)
Theorem value_counts_cells fieldnames rows j colname :
  NoDup fieldnames → fieldnames !! j = Some colname →
  ∃ vc, count_big_file_value_counts (fieldnames :: rows) colname = Return vc ∧
    ∀ k, default 0 (vc !! k) =
         List.length (List.filter (fun row => bool_decide (row !! j = k))
                        (data_records (fieldnames :: rows))).
Proof.
  intros Hnd Hc. cbn [count_big_file_value_counts].
  destruct (count_loop_cells fieldnames j colname rows ∅ Hnd Hc) as (vc & -> & Hvc).
  exists vc. split; [done|]. intros k. by rewrite Hvc, lookup_empty.
Qed.

Lemma value_counts_cells_witness :
  ∃ vc, count_big_file_value_counts
          [["a"; "b"]; ["1"; "x"]; []; ["2"]; ["1"; "x"; "z"]] "b" = Return vc ∧
        default 0 (vc !! Some "x") = 2 ∧ default 0 (vc !! None) = 1.
Proof.
  destruct (value_counts_cells ["a"; "b"] [["1"; "x"]; []; ["2"]; ["1"; "x"; "z"]]
              1 "b") as (vc & Hrun & Hvc).
  - apply NoDup_cons. split; [|apply NoDup_singleton].
    intros H%list_elem_of_singleton. discriminate H.
  - reflexivity.
  - exists vc. split; [exact Hrun|]. split; [exact (Hvc (Some "x"))|exact (Hvc None)].
Defined.

Section LabelCounts.

Variable float_of_string : string → option pyfloat.
Variable ceiling : nat.

Lemma steps_frame st st' :
  rtc (run_step float_of_string ceiling) st st' →
  col_uniq_vals_toomany st ⊆ col_uniq_vals_toomany st'.
Proof.
  induction 1 as [|st1 st2 st3 Hstep _ IH]; [done|].
  etrans; [|exact IH]. by eapply step_frame.
Qed.

Lemma rows_loop_label_counts y fieldnames rows st st' vc :
  Forall (fun row => List.length fieldnames ≤ List.length row) rows →
  rows_loop float_of_string y ceiling fieldnames rows st = Return st' →
  y ∉ col_uniq_vals_toomany st' →
  (vc !! None = None ∧ ∀ v, vc !! Some v = label_counts st !! v) →
  ∃ vc', count_loop fieldnames y rows vc = Return vc' ∧
         vc' !! None = None ∧ ∀ v, vc' !! Some v = label_counts st' !! v.
Proof.
  intros Hwide. revert st vc.
  induction Hwide as [|row rest Hrow _ IH]; intros st vc; cbn [rows_loop count_loop].
  - intros [= <-] _ Hvc. eauto.
  - destruct (process_row _ _ _ _ st row) as [st1| | |] eqn:Hr; try done.
    cbn [mbind outcome_bind bind]. intros Hrest Hy Hvc.
    assert (Hy1 : y ∉ col_uniq_vals_toomany st1).
    { intros Hin. apply Hy. by apply (steps_frame _ _ (rows_loop_steps _ _ _ _ _ _ _ Hrest)). }
    assert (Hy0 : y ∉ col_uniq_vals_toomany st).
    { intros Hin. apply Hy1.
      by apply (steps_frame _ _ (process_row_steps _ _ _ _ _ _ _ Hr)). }
    unfold process_row, update_label in Hr.
    change (col_uniq_vals_toomany (count_row st)) with (col_uniq_vals_toomany st) in Hr.
    rewrite decide_False in Hr by done.
    destruct (make_row_dict fieldnames row !! y) as [label|] eqn:Hlabel; [|done].
    cbn [mbind outcome_bind bind] in Hr.
    apply cols_loop_frame in Hr as (_ & Hl & _ & _). simpl in Hl.
    assert (Hd : dict_reader_row fieldnames row !! y = Some (Some label)).
    { unfold dict_reader_row. apply Nat.ltb_ge in Hrow. rewrite Hrow.
      by rewrite lookup_fmap, Hlabel. }
    destruct row as [|cell row].
    { unfold make_row_dict in Hlabel. by destruct fieldnames. }
    rewrite Hd. apply (IH st1); [done|done|].
    rewrite Hl. destruct Hvc as [Hnone Hsome]. split.
    + by rewrite lookup_insert_ne.
    + intros v. rewrite Hsome. destruct (decide (v = label)) as [->|Hne].
      * by rewrite !lookup_insert_eq.
      * rewrite !lookup_insert_ne; [done|done|congruence].
Qed.

End LabelCounts.

(** X19: when no row is shorter than the header and the streaming summary
    returns a label distribution, [count_big_file_value_counts] on the label
    column returns the same counts, and nothing under [None]. *)
Theorem label_counts_agree float_of_string ceiling fieldnames rows y summary n lc :
  Forall (fun row => List.length fieldnames ≤ List.length row) rows →
  summarize_big_training_data float_of_string (fieldnames :: rows) y ceiling
  = Return (summary, n, Some lc) →
  ∃ vc, count_big_file_value_counts (fieldnames :: rows) y = Return vc ∧
        vc !! None = None ∧ ∀ v, vc !! Some v = lc !! v.
Proof.
  intros Hwide Hrun. cbn [summarize_big_training_data count_big_file_value_counts] in *.
  destruct (rows_loop _ _ _ _ _ _) as [st| | |] eqn:Hloop; try done.
  cbn [mbind outcome_bind bind] in Hrun.
  destruct (summary_rows _ _ _) as [rs| | |]; try done.
  cbn [mbind outcome_bind bind] in Hrun.
  destruct (decide (y ∈ col_uniq_vals_toomany st)) as [|Hy]; [done|].
  injection Hrun as _ _ <-.
  destruct (rows_loop_label_counts float_of_string ceiling y fieldnames rows
              init_state st ∅ Hwide Hloop Hy) as (vc & Hvc & Hsame).
  { split; [done|]. intros v. by rewrite !lookup_empty. }
  by exists vc.
Qed.

Lemma label_counts_agree_witness :
  ∃ summary lc vc,
    summarize_big_training_data Examples.decimal_float
      [["X"; "y"]; ["1"; "a"]; ["2"; "b"]; ["3"; "a"; "extra"]] "y" 1000
    = Return (summary, 3, Some lc) ∧
    count_big_file_value_counts
      [["X"; "y"]; ["1"; "a"]; ["2"; "b"]; ["3"; "a"; "extra"]] "y" = Return vc ∧
    vc !! None = None ∧ ∀ v, vc !! Some v = lc !! v.
Proof.
  destruct (summarize_big_training_data Examples.decimal_float
              [["X"; "y"]; ["1"; "a"]; ["2"; "b"]; ["3"; "a"; "extra"]] "y" 1000)
    as [[[summary n] [lc|]]| | |] eqn:Hrun; try (vm_compute in Hrun; discriminate Hrun).
  assert (Hn : n = 3) by (vm_compute in Hrun; congruence).
  subst n.
  destruct (label_counts_agree Examples.decimal_float 1000 ["X"; "y"]
              [["1"; "a"]; ["2"; "b"]; ["3"; "a"; "extra"]] "y" summary 3 lc)
    as (vc & Hvc & Hsame).
  - repeat constructor.
  - exact Hrun.
  - exists summary, lc, vc. split; [reflexivity|]. split; [exact Hvc|exact Hsame].
Defined.

(** * More on the summaries *)

Section StreamShape.

Variable float_of_string : string → option pyfloat.
Variable ceiling : nat.

Lemma process_row_n_rows y cols st row st' :
  process_row float_of_string y ceiling cols st row = Return st' →
  n_rows st' = n_rows st + 1.
Proof.
  unfold process_row, update_label.
  destruct (decide _); cbn [mbind outcome_bind bind].
  - by intros (-> & _)%cols_loop_frame.
  - destruct (make_row_dict cols row !! y); [|done]. cbn [mbind outcome_bind bind].
    by intros (-> & _)%cols_loop_frame.
Qed.

Lemma rows_loop_n_rows y cols rows st st' :
  rows_loop float_of_string y ceiling cols rows st = Return st' →
  n_rows st' = n_rows st + List.length rows.
Proof.
  revert st. induction rows as [|row rest IH]; intros st; cbn [rows_loop].
  - intros [= <-]. simpl. lia.
  - destruct (process_row _ _ _ _ st row) as [st1| | |] eqn:Hr; try done.
    cbn [mbind outcome_bind bind]. intros ->%IH.
    apply process_row_n_rows in Hr as ->. simpl. lia.
Qed.

Lemma summary_rows_fields st cols rows :
  summary_rows ceiling st cols = Return rows →
  Forall2 (fun c r =>
    s_attribute r = c ∧ s_n_null r = get_null_count st c ∧
    div_counts (get_null_count st c) (n_rows st) = Return (s_perc_null r) ∧
    s_min r = (if get_numeric st c
               then (if isinf (get_min st c) then None else Some (get_min st c))
               else None) ∧
    s_max r = (if get_numeric st c
               then (if isinf (get_max st c) then None else Some (get_max st c))
               else None)) cols rows.
Proof.
  revert rows. induction cols as [|c rest IH]; intros rows; cbn [summary_rows].
  - intros [= <-]. constructor.
  - unfold summary_row at 1.
    destruct (div_counts _ _) as [perc| | |] eqn:Hdiv; try done.
    cbn [mbind outcome_bind bind].
    destruct (summary_rows ceiling st rest) as [rs| | |]; try done.
    cbn [mbind outcome_bind bind]. intros [= <-].
    constructor; [|by apply IH]. by simpl.
Qed.

End StreamShape.

(** X20: whenever [summarize_big_training_data] returns, the row count is
    the number of records after the header, the summary has one row per
    header name in the header's order, the null percentage of a row is its
    null count over the row count, and a header with a column comes with at
    least one row. *)
Theorem stream_summary_shape float_of_string ceiling cols rows y summary n lc :
  summarize_big_training_data float_of_string (cols :: rows) y ceiling
  = Return (summary, n, lc) →
  n = List.length rows ∧ List.map s_attribute summary = cols ∧
  (cols ≠ [] → rows ≠ []) ∧
  ∀ r, r ∈ summary →
    s_perc_null r
    = FFin (inject_Z (Z.of_nat (s_n_null r)) / inject_Z (Z.of_nat (List.length rows))).
Proof.
  cbn [summarize_big_training_data].
  destruct (rows_loop _ _ _ _ _ _) as [st| | |] eqn:Hloop; try done.
  cbn [mbind outcome_bind bind].
  destruct (summary_rows _ _ _) as [rs| | |] eqn:Hsum; try done.
  cbn [mbind outcome_bind bind]. intros [= <- <- _].
  apply rows_loop_n_rows in Hloop as Hn. simpl in Hn.
  apply summary_rows_fields in Hsum as Hfields.
  split; [done|]. split; [|split].
  - by apply summary_rows_Return in Hsum as [? _].
  - intros Hcols ->. destruct cols as [|c cs]; [done|].
    apply Forall2_cons_inv_l in Hfields as (r & rs' & (_ & _ & Hdiv & _) & _ & _).
    rewrite Hn in Hdiv. done.
  - intros r [i Hi]%list_elem_of_lookup.
    destruct (Forall2_lookup_r _ _ _ _ _ Hfields Hi) as (c & _ & _ & Hnull & Hdiv & _).
    rewrite <- Hnull, Hn in Hdiv. unfold div_counts in Hdiv. simpl in Hdiv.
    destruct (List.length rows =? 0); [done|]. by injection Hdiv as <-.
Qed.

Lemma stream_summary_shape_witness :
  ∃ summary n lc,
    summarize_big_training_data Examples.decimal_float
      [["X"; "Y"]; ["1"; "a"]; [""; "b"]] "Y" 1000 = Return (summary, n, lc) ∧
    n = 2 ∧ List.map s_attribute summary = ["X"; "Y"].
Proof.
  destruct (summarize_big_training_data Examples.decimal_float
              [["X"; "Y"]; ["1"; "a"]; [""; "b"]] "Y" 1000)
    as [[[summary n] lc]| | |] eqn:Hrun; try (vm_compute in Hrun; discriminate Hrun).
  destruct (stream_summary_shape Examples.decimal_float 1000 ["X"; "Y"]
              [["1"; "a"]; [""; "b"]] "Y" summary n lc Hrun) as (Hn & Hattr & _).
  exists summary, n, lc. split; [reflexivity|]. split; [exact Hn|exact Hattr].
Defined.




Lemma zip_take_width {A B} (l : list A) (k : list B) :
  zip l (take (List.length l) k) = zip l k.
Proof.
  revert k. induction l as [|a l IH]; intros [|b k]; simpl; try done.
  by rewrite IH.
Qed.

Lemma rows_loop_surplus float_of_string ceiling y cols rows st :
  rows_loop float_of_string y ceiling cols (List.map (take (List.length cols)) rows) st
  = rows_loop float_of_string y ceiling cols rows st.
Proof.
  revert st. induction rows as [|row rest IH]; intros st; cbn [rows_loop List.map].
  - done.
  - assert (Hrow : process_row float_of_string y ceiling cols st
                     (take (List.length cols) row)
                   = process_row float_of_string y ceiling cols st row).
    { unfold process_row, make_row_dict. by rewrite zip_take_width. }
    rewrite Hrow. destruct (process_row _ _ _ _ st row) as [st1| | |]; try done.
    cbn [mbind outcome_bind bind]. apply IH.
Qed.

(** X22: the cells of a row beyond the width of the header do not change the
    streaming summary. *)
Theorem surplus_cells_ignored float_of_string ceiling cols rows y :
  summarize_big_training_data float_of_string
    (cols :: List.map (take (List.length cols)) rows) y ceiling
  = summarize_big_training_data float_of_string (cols :: rows) y ceiling.
Proof.
  cbn [summarize_big_training_data]. by rewrite rows_loop_surplus.
Qed.

Lemma Qle_bool_false p q : Qle_bool p q = false → (q < p)%Q.
Proof.
  intros H. apply Qnot_le_lt. intros Hle. apply Qle_bool_iff in Hle. congruence.
Qed.

Lemma extremes_ordered_step mn mx v :
  extremes_ordered mn mx → extremes_ordered (py_min mn v) (py_max mx v).
Proof.
  unfold extremes_ordered, py_min, py_max, float_gtb.
  intros [[-> ->]|H].
  - destruct v as [| | |r]; simpl; auto. right. apply Qle_bool_iff. lra.
  - right.
    destruct mn as [| | |p], mx as [| | |q], v as [| | |r]; simpl in *; try done;
      repeat match goal with
             | |- context [Qle_bool ?a ?b] =>
                 let E := fresh "E" in destruct (Qle_bool a b) eqn:E; simpl
             end;
      try done;
      repeat match goal with
             | E : Qle_bool _ _ = true |- _ => apply Qle_bool_iff in E
             | E : Qle_bool _ _ = false |- _ => apply Qle_bool_false in E
             end;
      try (apply Qle_bool_iff); try lra.
Qed.


Section Extremes.

Variable float_of_string : string → option pyfloat.
Variable ceiling : nat.




Lemma min_max_loop_ordered series mn mx mn' mx' :
  min_max_loop float_of_string series mn mx = Some (mn', mx') →
  extremes_ordered mn mx → extremes_ordered mn' mx'.
Proof.
  revert mn mx. induction series as [|val rest IH]; intros mn mx; simpl.
  - by intros [= <- <-].
  - destruct (_is_null_or_blank val); [apply IH|].
    destruct (py_float float_of_string val) as [v|]; [|done].
    intros Hloop Hord. apply (IH _ _ Hloop). by apply extremes_ordered_step.
Qed.

End Extremes.

Lemma extremes_ordered_leb mn mx :
  extremes_ordered mn mx → isinf mn = false → float_leb mn mx = true.
Proof. by intros [[-> _]|?] ?. Qed.



(** X24: in every summary [summarize_training_data] returns, a column whose
    minimum and maximum are both not NaN has the minimum at most the
    maximum. *)
Theorem table_extremes_ordered float_of_string df y summary n lc :
  summarize_training_data float_of_string df y = Return (summary, n, lc) →
  ∀ r, r ∈ summary → isnan (t_min r) = false → isnan (t_max r) = false →
       float_leb (t_min r) (t_max r) = true.
Proof.
  unfold summarize_training_data.
  destruct (df_get df y) as [labels| | |]; try done.
  cbn [mbind outcome_bind bind]. intros [= <- _ _] r Hr.
  apply list_elem_of_In, in_map_iff in Hr as ([c col] & <- & _).
  unfold summarize_column, _get_min_max. cbn [fst snd].
  destruct (min_max_loop _ _ _ _) as [[mn mx]|] eqn:Hloop; [|done].
  apply min_max_loop_ordered in Hloop; [|by left]. simpl.
  destruct (isinf mn) eqn:Hmn; [done|]. destruct (isinf mx); [done|].
  intros _ _. by apply extremes_ordered_leb.
Qed.

Lemma table_extremes_ordered_witness :
  ∃ r summary lc,
    summarize_training_data Examples.decimal_float
      (Examples.one_column [PInt 3; PStr "1.5"; PNone; PFloat (FFin 2)]) "X"
    = Return (summary, 4, lc) ∧
    r ∈ summary ∧ float_leb (t_min r) (t_max r) = true.
Proof.
  destruct (summarize_training_data Examples.decimal_float
              (Examples.one_column [PInt 3; PStr "1.5"; PNone; PFloat (FFin 2)]) "X")
    as [[[summary n] lc]| | |] eqn:Hrun; try (vm_compute in Hrun; discriminate Hrun).
  assert (Hsum : ∃ r, n = 4 ∧ r ∈ summary ∧
                      isnan (t_min r) = false ∧ isnan (t_max r) = false).
  { vm_compute in Hrun. injection Hrun as <- <- _.
    eexists. split; [reflexivity|]. split; [left|]. split; reflexivity. }
  destruct Hsum as (r & -> & Hr & Ha & Hb).
  exists r, summary, lc. split; [reflexivity|]. split; [exact Hr|].
  exact (table_extremes_ordered Examples.decimal_float _ "X" summary 4 lc
           Hrun r Hr Ha Hb).
Defined.

Section ColumnCounts.

Variable float_of_string : string → option pyfloat.
Variable ceiling : nat.

Local Abbreviation astep := (acc_step float_of_string ceiling).



End ColumnCounts.



Section ShortRows.

Variable float_of_string : string → option pyfloat.
Variable ceiling : nat.

Lemma rows_loop_app y cols pre rest st :
  rows_loop float_of_string y ceiling cols (pre ++ rest) st
  = st' ← rows_loop float_of_string y ceiling cols pre st;
    rows_loop float_of_string y ceiling cols rest st'.
Proof.
  revert st. induction pre as [|row pre IH]; intros st; [done|].
  cbn [app rows_loop].
  destruct (process_row _ _ _ _ st row) as [st1| | |]; try done.
  cbn [mbind outcome_bind bind]. apply IH.
Qed.

Lemma cols_loop_missing rd cols st c :
  c ∈ cols → rd !! c = None →
  ∃ c', c' ∈ cols ∧
        cols_loop float_of_string ceiling rd cols st = Raise (KeyError c').
Proof.
  intros Hc Hnone. revert st.
  induction cols as [|c0 rest IH]; intros st; [by apply elem_of_nil in Hc|].
  cbn [cols_loop]. destruct (rd !! c0) as [raw|] eqn:Hc0.
  - apply elem_of_cons in Hc as [->|Hc]; [congruence|].
    destruct (IH Hc (update_col float_of_string ceiling st c0 raw)) as (c' & ? & ?).
    exists c'. split; [by right|done].
  - exists c0. split; [left|done].
Qed.

Lemma process_row_short y cols st row :
  NoDup cols → y ∈ cols → List.length row < List.length cols →
  ∃ c, c ∈ cols ∧
       process_row float_of_string y ceiling cols st row = Raise (KeyError c).
Proof.
  intros Hnd Hy Hshort.
  destruct (lookup_lt_is_Some_2 cols (List.length row) Hshort) as [c Hc].
  assert (Hnone : make_row_dict cols row !! c = None).
  { apply make_row_dict_None. intros (i & Hi & Hlt)%elem_of_take.
    pose proof (NoDup_lookup _ _ _ _ Hnd Hc Hi). lia. }
  unfold process_row, update_label.
  destruct (decide _); cbn [mbind outcome_bind bind].
  - apply cols_loop_missing with c; [by eapply list_elem_of_lookup_2|done].
  - destruct (make_row_dict cols row !! y) as [label|]; [|by eauto].
    cbn [mbind outcome_bind bind].
    apply cols_loop_missing with c; [by eapply list_elem_of_lookup_2|done].
Qed.

End ShortRows.

(** X26: under a header without repeated names that holds the label column,
    a row shorter than the header, after rows of full width, makes
    [summarize_big_training_data] raise [KeyError] with a column name: no
    summary comes back for the rows before it. *)
Theorem short_row_raises float_of_string ceiling cols pre row post y :
  rectangular cols pre → y ∈ cols → List.length row < List.length cols →
  ∃ c, c ∈ cols ∧
       summarize_big_training_data float_of_string (cols :: pre ++ row :: post) y ceiling
       = Raise (KeyError c).
Proof.
  intros Hrect Hy Hshort. cbn [summarize_big_training_data].
  destruct (rows_loop_view float_of_string ceiling y cols pre init_state Hrect Hy)
    as (st & Hpre & _).
  rewrite rows_loop_app, Hpre. cbn [mbind outcome_bind bind rows_loop].
  destruct (process_row_short float_of_string ceiling y cols st row)
    as (c & Hc & ->); [by destruct Hrect|done|done|].
  by exists c.
Qed.

Lemma short_row_raises_witness :
  ∃ c, c ∈ ["X"; "Y"] ∧
       summarize_big_training_data Examples.decimal_float
         (["X"; "Y"] :: [["1"; "2"]] ++ ["3"] :: [["4"; "5"]]) "X" 1000
       = Raise (KeyError c).
Proof.
  apply (short_row_raises Examples.decimal_float 1000 ["X"; "Y"] [["1"; "2"]] ["3"]
           [["4"; "5"]] "X").
  - split.
    + apply NoDup_cons. split; [|apply NoDup_singleton].
      intros H%list_elem_of_singleton. discriminate H.
    + repeat constructor.
  - left.
  - simpl. lia.
Defined.
